(** * IREE conversion patterns: LinalgToLLVMGPU/ConvertToLLVM.cpp and
    VM/Conversion/StandardToVM/ConvertStandardToVM.cpp

  A shallow embedding of the conversion patterns of the two files and
  the properties of their rewrites.  Each pattern is a computation in a
  small rewriter monad: the state is what the pattern has asked the
  [ConversionPatternRewriter] to do, the result is the [LogicalResult]
  the pattern returns, and a violated [assert] of the source aborts the
  computation. *)

From Stdlib Require Import ZArith Lia Bool.
From stdpp Require Import base option list strings gmap.

Local Open Scope Z_scope.

(** ** The IR the patterns inspect *)

Module IR.

Inductive Signedness := Signless | Signed | Unsigned.

Record IntegerType := mkIntegerType { width : Z; signedness : Signedness }.

(** The types the two files look at.  A memref carries its shape (a
    dimension is [None] when dynamic), element type and memory space. *)
Inductive Ty :=
  | IntegerTy (t : IntegerType)
  | IndexTy
  | FloatTy (bits : Z)
  | MemRefTy (shape : list (option Z)) (elem : Ty) (memspace : Z)
  | LLVMPointerTy (pointee : Ty) (addressSpace : Z)
  | LLVMVoidTy
  | RefTy (name : string).

#[global] Instance Signedness_eq_dec : EqDecision Signedness.
Proof. solve_decision. Defined.
#[global] Instance IntegerType_eq_dec : EqDecision IntegerType.
Proof. solve_decision. Defined.
#[global] Instance Ty_eq_dec : EqDecision Ty.
Proof. solve_decision. Defined.

(** [IntegerType::get(w, ctx)] and [Builder::getIntegerType(w)] build the
    signless integer type of that width. *)
Definition IntegerType_get (w : Z) : IntegerType := mkIntegerType w Signless.
Definition getIntegerType (w : Z) : Ty := IntegerTy (IntegerType_get w).
Definition getI32Type : Ty := getIntegerType 32.

Definition isSignlessInteger (t : Ty) : bool :=
  match t with
  | IntegerTy it => bool_decide (signedness it = Signless)
  | _ => false
  end.

(** [Type::getIntOrFloatBitWidth]: defined on integer and float types
    only. *)
Definition getIntOrFloatBitWidth (t : Ty) : option Z :=
  match t with
  | IntegerTy it => Some (width it)
  | FloatTy b => Some b
  | _ => None
  end.

(** [llvm::APInt], for the widths up to 64 bits that [getZExtValue] and
    [getSExtValue] are defined on: a bit width and the bits read as an
    unsigned number. *)
Record APInt := mkAPInt { bitWidth : Z; raw : Z }.

Definition getZExtValue (a : APInt) : Z := raw a.

Definition getSExtValue (a : APInt) : Z :=
  if raw a <? 2 ^ (bitWidth a - 1) then raw a else raw a - 2 ^ bitWidth a.

(** Attributes.  An [IntegerAttr] has a type, an integer type or
    [index], and the bits of its value. *)
Inductive Attribute :=
  | UnitAttr
  | StringAttr (value : string)
  | IntegerAttr (ty : Ty) (bits : Z)
  | FloatAttr (ty : Ty) (repr : Z)
  | TypeAttr (ty : Ty)
  | SymbolRefAttr (root : string)
  | DictionaryAttr (entries : list (string * string)).

(** The width of the [APInt] an integer attribute holds: the width of
    its integer type, and the 64 bits of the internal storage for
    [index]. *)
Definition IntegerAttr_storageWidth (ty : Ty) : Z :=
  match ty with
  | IntegerTy it => width it
  | _ => 64
  end.

Definition IntegerAttr_getValue (ty : Ty) (bits : Z) : APInt :=
  mkAPInt (IntegerAttr_storageWidth ty) bits.

(** [IntegerAttr::getInt]: the value sign-extended to [int64_t]. *)
Definition IntegerAttr_getInt (ty : Ty) (bits : Z) : Z :=
  getSExtValue (IntegerAttr_getValue ty bits).

(** An SSA value as a pattern sees an operand: its identity, its type
    and, when [m_ConstantInt] matches its defining operation, the
    integer it binds. *)
Record Value := mkValue {
  val_id : nat;
  val_type : Ty;
  val_constInt : option APInt
}.

Definition matchPattern_m_ConstantInt (v : Value) : option APInt :=
  val_constInt v.

(** Generic operations: a name, the attribute dictionary, the result
    types and the owned regions; a region is a list of blocks, a block
    has argument types and operations. *)
Inductive Operation :=
  | Op (name : string) (attrs : gmap string Attribute)
       (resultTypes : list Ty) (regions : list (list Block))
with Block :=
  | Blk (args : list Ty) (ops : list Operation).

Definition Region := list Block.

Definition op_name (o : Operation) : string :=
  match o with Op n _ _ _ => n end.
Definition op_attrs (o : Operation) : gmap string Attribute :=
  match o with Op _ a _ _ => a end.
Definition op_resultTypes (o : Operation) : list Ty :=
  match o with Op _ _ r _ => r end.
Definition op_regions (o : Operation) : list Region :=
  match o with Op _ _ _ r => r end.
Definition block_args (b : Block) : list Ty :=
  match b with Blk a _ => a end.
Definition block_ops (b : Block) : list Operation :=
  match b with Blk _ o => o end.

(** Induction on operations through their regions and blocks. *)
Section OperationInduction.
Context (P : Operation → Prop).
Hypothesis HOp : ∀ name attrs resultTypes regions,
  Forall (Forall (λ b, Forall P (block_ops b))) regions →
  P (Op name attrs resultTypes regions).

Fixpoint Operation_nested_ind (o : Operation) : P o :=
  match o with
  | Op name attrs resultTypes regions =>
    HOp name attrs resultTypes regions
      ((fix regions_ind (rs : list (list Block))
          : Forall (Forall (λ b, Forall P (block_ops b))) rs :=
          match rs with
          | [] => List.Forall_nil _
          | r :: rs' =>
              @List.Forall_cons _ _ r rs'
                ((fix blocks_ind (bs : list Block)
                    : Forall (λ b, Forall P (block_ops b)) bs :=
                    match bs with
                    | [] => List.Forall_nil _
                    | Blk args ops :: bs' =>
                        @List.Forall_cons _
                          (λ b, Forall P (block_ops b)) (Blk args ops) bs'
                          ((fix ops_ind (os : list Operation)
                              : Forall P os :=
                              match os with
                              | [] => List.Forall_nil _
                              | o' :: os' =>
                                  @List.Forall_cons _ _ o' os'
                                    (Operation_nested_ind o') (ops_ind os')
                              end) ops)
                          (blocks_ind bs')
                    end) r)
                (regions_ind rs')
          end) regions)
  end.

End OperationInduction.

Inductive LogicalResult := success | failure.

#[global] Instance LogicalResult_eq_dec : EqDecision LogicalResult.
Proof. solve_decision. Defined.

End IR.

Import IR.

(** ** The rewriter *)

Module Rewriter.

(** What an operation is replaced with: explicit values (named by the
    handle of the created operation that defines them) or all results
    of one created operation. *)
Inductive Replacement :=
  | WithValues (handles : list nat)
  | WithResultsOf (handle : nat)
  | Erased.

Section State.
Context {TOp : Type}.

(** The operations created so far (a handle is a position in
    [created]; created operations are mutable through their handle),
    the fate of the matched operation, the remarks emitted. *)
Record State := mkState {
  created : list TOp;
  replaced : option Replacement;
  remarks : list string
}.

Definition initial : State := mkState [] None [].

(** [None]: the run has no defined result, because an assertion of the
    source is violated or because it reads outside an array, which the
    source does not check. *)
Definition M (A : Type) : Type := State → option (A * State).

Definition ret {A} (a : A) : M A := λ s, Some (a, s).

Definition bind {A B} (m : M A) (k : A → M B) : M B :=
    λ s, match m s with
         | Some (a, s') => k a s'
         | None => None
         end.

Definition assert (b : bool) : M unit :=
    λ s, if b then Some (tt, s) else None.

Definition create (o : TOp) : M nat :=
    λ s, Some (length (created s),
               mkState (created s ++ [o]) (replaced s) (remarks s)).

(** In-place mutation of a created operation. *)
Definition update (h : nat) (f : TOp → TOp) : M unit :=
    λ s, Some (tt, mkState (alter f h (created s)) (replaced s) (remarks s)).

(** Reading a created operation back through its handle. *)
Definition inspect (h : nat) : M TOp :=
    λ s, match created s !! h with
         | Some o => Some (o, s)
         | None => None
         end.

Definition replaceOp (r : Replacement) : M unit :=
    λ s, Some (tt, mkState (created s) (Some r) (remarks s)).

Definition replaceOpWithNewOp (o : TOp) : M unit :=
    bind (create o) (λ h, replaceOp (WithResultsOf h)).

Definition eraseOp : M unit := replaceOp Erased.

Definition emitRemark (msg : string) : M unit :=
    λ s, Some (tt, mkState (created s) (replaced s) (remarks s ++ [msg])).

Definition run {A} (m : M A) : option (A * State) := m initial.

End State.

Arguments State : clear implicits.
Arguments M : clear implicits.

End Rewriter.

Import Rewriter.

Notation "x <- m ;; k" := (Rewriter.bind m (λ x, k))
  (at level 100, m at next level, right associativity, only parsing).
Notation "m ;;; k" := (Rewriter.bind m (λ _, k))
  (at level 100, right associativity, only parsing).

(** An operand adaptor reads the converted operands by position;
    [ArrayRef] asserts that the position exists. *)
Definition operandAt {TOp} (operands : list Value) (i : nat) : M TOp Value :=
  λ s, match operands !! i with
       | Some v => Some (v, s)
       | None => None
       end.

(** ** Signature conversion *)

Module DialectConversion.

(** Modelled from the spec: the [SignatureConversion] accumulator, which
    records for each original argument the slots it was expanded to. *)
Record SignatureConversion := mkSignatureConversion {
  remappedInputs : list (option (nat * nat));
  argTypes : list Ty
}.

Definition SignatureConversion_new (numOrigInputs : nat)
  : SignatureConversion :=
  mkSignatureConversion (replicate numOrigInputs None) [].

(** [addInputs(ArrayRef<Type>)]: new arguments that map to no original
    one. *)
Definition addInputs (types : list Ty) (sc : SignatureConversion)
  : SignatureConversion :=
  mkSignatureConversion (remappedInputs sc) (argTypes sc ++ types).

(** [addInputs(unsigned, ArrayRef<Type>)]: the slots of one original
    argument. *)
Definition addInputs_at (origInputNo : nat) (types : list Ty)
    (sc : SignatureConversion) : SignatureConversion :=
  mkSignatureConversion
    (<[origInputNo := Some (length (argTypes sc), length types)]>
       (remappedInputs sc))
    (argTypes sc ++ types).

Definition getConvertedTypes (sc : SignatureConversion) : list Ty :=
  argTypes sc.

(** Modelled from the spec: [applySignatureConversion], which gives the
    entry block of the region the converted argument types.  The
    operations it may insert at the block entry to materialize the
    original arguments are not part of the model, so the properties say
    nothing of the operations of an entry block that had arguments. *)
Definition applySignatureConversion (sc : SignatureConversion)
    (body : Region) : Region :=
  match body with
  | [] => []
  | Blk _ ops :: rest => Blk (getConvertedTypes sc) ops :: rest
  end.

(** [inlineRegionBefore(src, dst, dst.end())]: the blocks of [src] go to
    the end of [dst]. *)
Definition inlineRegionBefore_end (src : Region) (dst : Region) : Region :=
  dst ++ src.

End DialectConversion.

Import DialectConversion.

(** ** ConvertStandardToVM.cpp *)

Module StandardToVM.

(** *** Source operations of the standard dialect *)

(** A [ModuleOp] with the name of its parent operation, when it has one. *)
Record ModuleOp := mkModuleOp {
  module_parent : option string;
  module_name : option string;
  module_body : Region
}.

Definition ModuleOp_getOperationName : string := "module".

Definition isa_ModuleOp (parentName : string) : bool :=
  bool_decide (parentName = ModuleOp_getOperationName).

(** A [FuncOp]: the symbol name and the function type are read through
    [getName] and [getType]; [func_attrs] is the dictionary [getAttr]
    looks the remaining attributes up in. *)
Record FuncOp := mkFuncOp {
  func_name : string;
  func_inputs : list Ty;
  func_results : list Ty;
  func_attrs : gmap string Attribute;
  func_body : Region
}.

Record ConstantOp := mkConstantOp { const_value : Attribute }.

Inductive CmpIPredicate :=
| eq | ne | slt | sle | sgt | sge | ult | ule | ugt | uge.

Record CmpIOp := mkCmpIOp { cmp_predicate : CmpIPredicate }.

(** Shift, select and call operations: the result type(s) and, for a
    call, the callee symbol; the operands reach the pattern converted. *)
Record ShiftLeftOp := mkShiftLeftOp { shift_type : Ty }.

Record SelectOp := mkSelectOp { select_type : Ty }.

Record CallOp := mkCallOp {
  call_callee : string;
  call_resultTypes : list Ty
}.

(** *** Operations of the VM dialect the patterns create *)

Inductive VMOp :=
| VM_ModuleOp (name : string) (body : Region)
| VM_FuncOp (name : string) (inputs results : list Ty)
            (attrs : gmap string Attribute) (body : Region)
| VM_ExportOp (function_ref : string) (export_name : string)
| VM_ConstI32ZeroOp
| VM_ConstI32Op (value : Z)
| VM_CmpEQI32Op (result : Ty) (lhs rhs : Value)
| VM_CmpNEI32Op (result : Ty) (lhs rhs : Value)
| VM_CmpLTI32SOp (result : Ty) (lhs rhs : Value)
| VM_CmpLTEI32SOp (result : Ty) (lhs rhs : Value)
| VM_CmpGTI32SOp (result : Ty) (lhs rhs : Value)
| VM_CmpGTEI32SOp (result : Ty) (lhs rhs : Value)
| VM_CmpLTI32UOp (result : Ty) (lhs rhs : Value)
| VM_CmpLTEI32UOp (result : Ty) (lhs rhs : Value)
| VM_CmpGTI32UOp (result : Ty) (lhs rhs : Value)
| VM_CmpGTEI32UOp (result : Ty) (lhs rhs : Value)
| VM_ShlI32Op (result : Ty) (operand : Value) (amount : Attribute)
| VM_SelectI32Op (result : Ty) (condition true_value false_value : Value)
| VM_CallOp (callee : string) (resultTypes : list Ty) (operands : list Value).

Abbreviation Pattern := (M VMOp LogicalResult).

(** *** ModuleOpConversion *)

Definition VM_ModuleOp_takeBody (body : Region) (o : VMOp) : VMOp :=
  match o with
  | VM_ModuleOp n _ => VM_ModuleOp n body
  | _ => o
  end.

Definition ModuleOpConversion (srcOp : ModuleOp) (operands : list Value)
  : Pattern :=
  if match module_parent srcOp with
     | None => true
     | Some p => negb (isa_ModuleOp p)
     end
  then Rewriter.ret failure
  else
    let name := match module_name srcOp with
                | Some n => n
                | None => "module"%string
                end in
    newModuleOp <- create (VM_ModuleOp name []) ;;
    update newModuleOp (VM_ModuleOp_takeBody (module_body srcOp)) ;;;
    replaceOp (WithValues []) ;;;
    Rewriter.ret success.

(** *** ConstantOpConversion

    [getIntOrFloatBitWidth] asserts that the type it is asked about is an
    integer or a float type. *)

Definition ConstantOpConversion (srcOp : ConstantOp) (operands : list Value)
  : Pattern :=
  match const_value srcOp with
  | IntegerAttr ty bits =>
      match getIntOrFloatBitWidth ty with
      | None => assert false ;;; Rewriter.ret failure
      | Some numBits =>
          if negb (numBits =? 1) && negb (numBits =? 32) then
            emitRemark "unsupported bit width for dialect constant" ;;;
            Rewriter.ret failure
          else
            let intValue := IntegerAttr_getInt ty bits in
            (if intValue =? 0
             then replaceOpWithNewOp VM_ConstI32ZeroOp
             else replaceOpWithNewOp (VM_ConstI32Op intValue)) ;;;
            Rewriter.ret success
      end
  | _ =>
      emitRemark "unsupported const type for dialect" ;;;
      Rewriter.ret failure
  end.

(** *** CmpIOpConversion *)

Definition CmpIOpConversion (srcOp : CmpIOp) (operands : list Value)
  : Pattern :=
  lhs <- operandAt operands 0 ;;
  rhs <- operandAt operands 1 ;;
  let returnType := getIntegerType 32 in
  match cmp_predicate srcOp with
  | eq => replaceOpWithNewOp (VM_CmpEQI32Op returnType lhs rhs) ;;;
          Rewriter.ret success
  | ne => replaceOpWithNewOp (VM_CmpNEI32Op returnType lhs rhs) ;;;
          Rewriter.ret success
  | slt => replaceOpWithNewOp (VM_CmpLTI32SOp returnType lhs rhs) ;;;
           Rewriter.ret success
  | sle => replaceOpWithNewOp (VM_CmpLTEI32SOp returnType lhs rhs) ;;;
           Rewriter.ret success
  | sgt => replaceOpWithNewOp (VM_CmpGTI32SOp returnType lhs rhs) ;;;
           Rewriter.ret success
  | sge => replaceOpWithNewOp (VM_CmpGTEI32SOp returnType lhs rhs) ;;;
           Rewriter.ret success
  | ult => replaceOpWithNewOp (VM_CmpLTI32UOp returnType lhs rhs) ;;;
           Rewriter.ret success
  | ule => replaceOpWithNewOp (VM_CmpLTEI32UOp returnType lhs rhs) ;;;
           Rewriter.ret success
  | ugt => replaceOpWithNewOp (VM_CmpGTI32UOp returnType lhs rhs) ;;;
           Rewriter.ret success
  | uge => replaceOpWithNewOp (VM_CmpGTEI32UOp returnType lhs rhs) ;;;
           Rewriter.ret success
  end.

(** *** ShiftArithmeticOpConversion<SrcOpTy, DstOpTy, kBits> *)

Section ShiftArithmeticOpConversion.
Context (DstOpTy : Ty → Value → Attribute → VMOp) (kBits : Z).

Definition ShiftArithmeticOpConversion (srcOp : ShiftLeftOp)
    (operands : list Value) : Pattern :=
  let type := shift_type srcOp in
  if negb (isSignlessInteger type)
     || negb (bool_decide (getIntOrFloatBitWidth type = Some kBits))
  then Rewriter.ret failure
  else
    rhs <- operandAt operands 1 ;;
    match matchPattern_m_ConstantInt rhs with
    | None => Rewriter.ret failure
    | Some amount =>
        let amountRaw := getZExtValue amount in
        if amountRaw >? kBits then Rewriter.ret failure
        else
          let amountAttr :=
            IntegerAttr (IntegerTy (IntegerType_get 8)) amountRaw in
          lhs <- operandAt operands 0 ;;
          replaceOpWithNewOp (DstOpTy (shift_type srcOp) lhs amountAttr) ;;;
          Rewriter.ret success
    end.

End ShiftArithmeticOpConversion.

(** The one instance [populateStandardToVMPatterns] registers. *)
Definition ShiftLeftOpConversion : ShiftLeftOp → list Value → Pattern :=
  ShiftArithmeticOpConversion VM_ShlI32Op 32.

(** *** SelectI32OpConversion *)

Definition SelectI32OpConversion_kBits : Z := 32.

Definition SelectI32OpConversion (srcOp : SelectOp) (operands : list Value)
  : Pattern :=
  let requiredType := IntegerTy (IntegerType_get SelectI32OpConversion_kBits) in
  true_value <- operandAt operands 1 ;;
  if bool_decide (val_type true_value ≠ requiredType)
  then Rewriter.ret failure
  else
    condition <- operandAt operands 0 ;;
    false_value <- operandAt operands 2 ;;
    replaceOpWithNewOp
      (VM_SelectI32Op requiredType condition true_value false_value) ;;;
    Rewriter.ret success.

(** *** The type converter

    [VMTypeConverter] (Dialect/VM/Conversion/TypeConverter.h) is not among
    the sources: the conversion it registers is the parameter
    [convertTypeN], which gives the types a source type converts to, or
    [None] when it has no conversion. *)

Section TypeConverter.
Context (convertTypeN : Ty → option (list Ty)).

(** Modelled from the spec: [TypeConverter::convertType(Type)], the
    one-to-one query; it reports no match unless the type converts to
    exactly one type. *)
Definition convertType (t : Ty) : option Ty :=
  match convertTypeN t with
  | Some [r] => Some r
  | _ => None
  end.

(** Modelled from the spec: [TypeConverter::convertTypes], which fails
    as a whole when one element fails. *)
Fixpoint convertTypes (types : list Ty) (results : list Ty)
  : option (list Ty) :=
  match types with
  | [] => Some results
  | t :: rest =>
      match convertTypeN t with
      | Some rs => convertTypes rest (results ++ rs)
      | None => None
      end
  end.

(** Modelled from the spec: [TypeConverter::convertSignatureArg], which
    appends zero or more slots for one argument. *)
Definition convertSignatureArg (inputNo : nat) (type : Ty)
    (sc : SignatureConversion) : option SignatureConversion :=
  match convertTypeN type with
  | None => None
  | Some [] => Some sc
  | Some ts => Some (addInputs_at inputNo ts sc)
  end.

(** *** FuncOpConversion *)

Definition kRetainedAttributes : list string :=
  ["iree.reflection"; "sym_visibility"]%string.

(** The loop over the function inputs. *)
Fixpoint convertArguments (i : nat) (inputs : list Ty)
    (sc : SignatureConversion) : option SignatureConversion :=
  match inputs with
  | [] => Some sc
  | t :: rest =>
      match convertSignatureArg i t sc with
      | None => None
      | Some sc' => convertArguments (S i) rest sc'
      end
  end.

Definition VM_FuncOp_getName (o : VMOp) : string :=
  match o with
  | VM_FuncOp n _ _ _ _ => n
  | _ => ""%string
  end.

Definition VM_FuncOp_setAttr (name : string) (attr : Attribute) (o : VMOp)
  : VMOp :=
  match o with
  | VM_FuncOp n i r attrs b => VM_FuncOp n i r (<[name := attr]> attrs) b
  | _ => o
  end.

Definition VM_FuncOp_mapBody (f : Region → Region) (o : VMOp) : VMOp :=
  match o with
  | VM_FuncOp n i r attrs b => VM_FuncOp n i r attrs (f b)
  | _ => o
  end.

(** The loop over [kRetainedAttributes]. *)
Fixpoint retainAttributes (retainedAttributes : list string) (srcOp : FuncOp)
    (newFuncOp : nat) : M VMOp unit :=
  match retainedAttributes with
  | [] => Rewriter.ret tt
  | attrName :: rest =>
      match func_attrs srcOp !! attrName with
      | Some attr => update newFuncOp (VM_FuncOp_setAttr attrName attr)
      | None => Rewriter.ret tt
      end ;;;
      retainAttributes rest srcOp newFuncOp
  end.

Definition isa_UnitAttr (a : Attribute) : bool :=
  match a with UnitAttr => true | _ => false end.

Definition FuncOpConversion (srcOp : FuncOp) (operands : list Value)
  : Pattern :=
  let signatureConversion0 :=
    SignatureConversion_new (length (func_inputs srcOp)) in
  match convertArguments 0 (func_inputs srcOp) signatureConversion0 with
  | None => Rewriter.ret failure
  | Some signatureConversion =>
  match convertTypes (func_results srcOp) [] with
  | None => Rewriter.ret failure
  | Some convertedResultTypes =>
      newFuncOp <- create (VM_FuncOp (func_name srcOp)
                             (getConvertedTypes signatureConversion)
                             convertedResultTypes ∅ []) ;;
      update newFuncOp
        (VM_FuncOp_mapBody (inlineRegionBefore_end (func_body srcOp))) ;;;
      retainAttributes kRetainedAttributes srcOp newFuncOp ;;;
      update newFuncOp
        (VM_FuncOp_mapBody (applySignatureConversion signatureConversion)) ;;;
      match func_attrs srcOp !! "iree.module.export"%string with
      | Some exportAttr =>
          newFunc <- inspect newFuncOp ;;
          exportName <-
            match exportAttr with
            | StringAttr value => Rewriter.ret value
            | _ => assert (isa_UnitAttr exportAttr) ;;;
                   Rewriter.ret (VM_FuncOp_getName newFunc)
            end ;;
          create (VM_ExportOp (VM_FuncOp_getName newFunc) exportName) ;;;
          Rewriter.ret tt
      | None => Rewriter.ret tt
      end ;;;
      replaceOp (WithValues []) ;;;
      Rewriter.ret success
  end
  end.

(** *** CallOpConversion *)

(** The loop over the result types of the call. *)
Fixpoint convertResultTypes (types : list Ty) (resultTypes : list Ty)
  : option (list Ty) :=
  match types with
  | [] => Some resultTypes
  | resultType :: rest =>
      match convertType resultType with
      | None => None
      | Some resultType' =>
          convertResultTypes rest (resultTypes ++ [resultType'])
      end
  end.

Definition CallOpConversion (srcOp : CallOp) (operands : list Value)
  : Pattern :=
  match convertResultTypes (call_resultTypes srcOp) [] with
  | None => Rewriter.ret failure
  | Some resultTypes =>
      replaceOpWithNewOp
        (VM_CallOp (call_callee srcOp) resultTypes operands) ;;;
      Rewriter.ret success
  end.

End TypeConverter.

End StandardToVM.

(** ** ConvertToLLVM.cpp *)

Module LinalgToLLVMGPU.

(** *** Source operations *)

(** [Operation::walk]: the operations nested under an operation, each
    after the operations of its own regions, then the operation itself. *)
Fixpoint walk (o : Operation) : list Operation :=
  match o with
  | Op _ _ _ regions => flat_map (flat_map walk_block) regions ++ [o]
  end
with walk_block (b : Block) : list Operation :=
  match b with
  | Blk _ ops => flat_map walk ops
  end.

Definition walk_region (r : Region) : list Operation :=
  flat_map walk_block r.

(** A [FuncOp]: symbol name, function type, visibility, the attribute
    dictionary [getAttrs] returns, and the body. *)
Record FuncOp := mkFuncOp {
  func_name : string;
  func_inputs : list Ty;
  func_results : list Ty;
  func_isPublic : bool;
  func_attrs : gmap string Attribute;
  func_body : Region
}.

Definition InterfaceBindingSubspanOp_getOperationName : string :=
  "hal.interface.binding.subspan".

Definition isa_InterfaceBindingSubspanOp (o : Operation) : bool :=
  bool_decide (op_name o = InterfaceBindingSubspanOp_getOperationName).

(** The operations the typed callback of [funcOp.walk] is called on, in
    the order of the walk (the function itself is not one of them). *)
Definition walk_InterfaceBindingSubspanOp (funcOp : FuncOp)
  : list Operation :=
  filter (λ o, isa_InterfaceBindingSubspanOp o = true)
         (walk_region (func_body funcOp)).

(** The type of the one result of an operation. *)
Definition getType (o : Operation) : option Ty :=
  match op_resultTypes o with
  | [t] => Some t
  | _ => None
  end.

Definition hasStaticShape (shape : list (option Z)) : bool :=
  forallb (λ d, match d with Some _ => true | None => false end) shape.

(** What a symbol reference resolves to: a [hal.interface.binding]
    declaration with its set and binding numbers, or another symbol. *)
Inductive SymbolOp :=
| InterfaceBindingOp (set binding : APInt)
| OtherSymbolOp (name : string).

(** [op->getAttrOfType<SymbolRefAttr>(name)]. *)
Definition getAttrOfType_SymbolRefAttr (o : Operation) (name : string)
  : option string :=
  match op_attrs o !! name with
  | Some (SymbolRefAttr s) => Some s
  | _ => None
  end.

Definition lookupNearestSymbolFrom (symbols : gmap string SymbolOp)
    (ref : option string) : option SymbolOp :=
  match ref with
  | Some s => symbols !! s
  | None => None
  end.

(** The workgroup id, count and size queries carry the axis. *)
Record InterfaceWorkgroupOp := mkInterfaceWorkgroupOp { dimension : APInt }.

Inductive InterfaceWorkgroupKind :=
| InterfaceWorkgroupIDOp
| InterfaceWorkgroupCountOp
| InterfaceWorkgroupSizeOp.

(** *** Operations the patterns create *)

Inductive Linkage := External | Internal.

Inductive GPUIntrinsic :=
| ROCDL_BlockIdXOp | ROCDL_BlockIdYOp | ROCDL_BlockIdZOp
| ROCDL_GridDimXOp | ROCDL_GridDimYOp | ROCDL_GridDimZOp
| ROCDL_BlockDimXOp | ROCDL_BlockDimYOp | ROCDL_BlockDimZOp
| NVVM_BlockIdXOp | NVVM_BlockIdYOp | NVVM_BlockIdZOp
| NVVM_GridDimXOp | NVVM_GridDimYOp | NVVM_GridDimZOp
| NVVM_BlockDimXOp | NVVM_BlockDimYOp | NVVM_BlockDimZOp.

Record BlockArgument := mkBlockArgument { arg_number : nat; arg_type : Ty }.

(** The function, the intrinsic reads, the sign extension (its operand
    named by the handle of the operation defining it) and the memref
    descriptor [MemRefDescriptor::fromStaticShape] builds on a base
    pointer. *)
Inductive LLVMOp :=
| LLVM_LLVMFuncOp (name : string) (returnType : Ty) (params : list Ty)
                  (linkage : Linkage) (attrs : gmap string Attribute)
                  (body : Region)
| GPU_IntrinsicOp (intrinsic : GPUIntrinsic) (result : Ty)
| LLVM_SExtOp (result : Ty) (operand : nat)
| MemRefDescriptor_fromStaticShape (memrefType : Ty)
                                   (basePtr : BlockArgument).

Abbreviation Pattern := (M LLVMOp LogicalResult).

Definition LLVMFuncOp_body (o : LLVMOp) : Region :=
  match o with
  | LLVM_LLVMFuncOp _ _ _ _ _ b => b
  | _ => []
  end.

Definition LLVMFuncOp_params (o : LLVMOp) : list Ty :=
  match o with
  | LLVM_LLVMFuncOp _ _ p _ _ _ => p
  | _ => []
  end.

Definition LLVMFuncOp_mapBody (f : Region → Region) (o : LLVMOp) : LLVMOp :=
  match o with
  | LLVM_LLVMFuncOp n r p l a b => LLVM_LLVMFuncOp n r p l a (f b)
  | _ => o
  end.

(** [getNumArguments] counts the parameters of the function type;
    [getArgument] reads an argument of the entry block. *)
Definition getNumArguments (o : LLVMOp) : nat := length (LLVMFuncOp_params o).

Definition getArgument (o : LLVMOp) (idx : nat) : option BlockArgument :=
  match LLVMFuncOp_body o with
  | [] => None
  | entry :: _ => mkBlockArgument idx <$> block_args entry !! idx
  end.

(** *** ConvertFunc *)

(** The body of the walk callback: the pointer type a subspan result
    becomes; [cast<MemRefType>] asserts that the result is a memref. *)
Definition llvmInputType (input : Operation) : option Ty :=
  match getType input with
  | Some (MemRefTy _ elType memorySpace) =>
      Some (LLVMPointerTy elType memorySpace)
  | _ => None
  end.

(** The walk with its [push_back]s. *)
Fixpoint collectInputTypes (inputs : list Operation) (llvmInputTypes : list Ty)
  : M LLVMOp (list Ty) :=
  match inputs with
  | [] => Rewriter.ret llvmInputTypes
  | input :: rest =>
      match llvmInputType input with
      | Some llvmType => collectInputTypes rest (llvmInputTypes ++ [llvmType])
      | None => assert false ;;; Rewriter.ret []
      end
  end.

Definition SymbolTable_getSymbolAttrName : string := "sym_name".
Definition function_like_impl_getTypeAttrName : string := "type".

Section LLVMTypeConverter.
(** The [LLVMTypeConverter] is handed to the patterns; what it does to
    the signature of a block that is not the entry block is the
    parameter [convertBlockSignature]. *)
Context (convertBlockSignature : Block → option Block).

(** Modelled from the spec: [convertRegionTypes], which applies the
    signature conversion to the entry block and the type converter to the
    signatures of the other blocks, and fails when one of them fails. *)
Definition convertRegionTypes (body : Region) (sc : SignatureConversion)
  : option Region :=
  match body with
  | [] => Some []
  | entry :: rest =>
      match mapM convertBlockSignature rest with
      | Some rest' => Some (applySignatureConversion sc [entry] ++ rest')
      | None => None
      end
  end.

Definition ConvertFunc (funcOp : FuncOp) (operands : list Value) : Pattern :=
  if negb (func_isPublic funcOp) then Rewriter.ret failure
  else
    assert (bool_decide (length (func_inputs funcOp) = 0%nat
                         ∧ length (func_results funcOp) = 0%nat)) ;;;
    let signatureConverter0 := SignatureConversion_new 0 in
    llvmInputTypes <-
      collectInputTypes (walk_InterfaceBindingSubspanOp funcOp) [] ;;
    let signatureConverter := addInputs llvmInputTypes signatureConverter0 in
    let funcAttrs :=
      filter (λ attr, ¬ (attr.1 = SymbolTable_getSymbolAttrName
                         ∨ attr.1 = function_like_impl_getTypeAttrName))
             (func_attrs funcOp) in
    newFuncOp <- create (LLVM_LLVMFuncOp (func_name funcOp) LLVMVoidTy
                           llvmInputTypes External funcAttrs []) ;;
    update newFuncOp
      (LLVMFuncOp_mapBody (inlineRegionBefore_end (func_body funcOp))) ;;;
    newFunc <- inspect newFuncOp ;;
    match convertRegionTypes (LLVMFuncOp_body newFunc) signatureConverter with
    | None => Rewriter.ret failure
    | Some body' =>
        update newFuncOp (LLVMFuncOp_mapBody (λ _, body')) ;;;
        eraseOp ;;;
        Rewriter.ret success
    end.

End LLVMTypeConverter.

(** The implicit conversion of a [uint64_t] to the [unsigned] index
    [getArgument] takes. *)
Definition static_cast_unsigned (x : Z) : Z := x mod 2 ^ 32.

(** *** ConvertIREEBindingOp

    [llvmFuncOp] is the enclosing [LLVMFuncOp], when the operation is
    nested under one; [symbols] is the symbol table the lookup runs in.
    The source checks that the function has an argument, not that it has
    the argument it reads: a binding number outside the entry block
    arguments is a read outside the array, with no defined result. *)

Definition ConvertIREEBindingOp (symbols : gmap string SymbolOp)
    (llvmFuncOp : option LLVMOp) (op : Operation) (operands : list Value)
  : Pattern :=
  match llvmFuncOp with
  | None => Rewriter.ret failure
  | Some llvmFuncOp =>
      assert (bool_decide (0 < getNumArguments llvmFuncOp)%nat) ;;;
      let memrefType := getType op in
      let symbol :=
        lookupNearestSymbolFrom symbols
          (getAttrOfType_SymbolRefAttr op "binding") in
      match symbol with
      | Some (InterfaceBindingOp _ binding) =>
          match getArgument llvmFuncOp
                  (Z.to_nat (static_cast_unsigned (getZExtValue binding))) with
          | None => assert false ;;; Rewriter.ret failure
          | Some llvmBufferBasePtr =>
              match memrefType with
              | Some (MemRefTy shape elType memorySpace) =>
                  if hasStaticShape shape then
                    desc <- create (MemRefDescriptor_fromStaticShape
                                      (MemRefTy shape elType memorySpace)
                                      llvmBufferBasePtr) ;;
                    replaceOp (WithValues [desc]) ;;;
                    Rewriter.ret success
                  else
                    assert false ;;; Rewriter.ret success
              | _ => assert false ;;; Rewriter.ret failure
              end
          end
      | _ => assert false ;;; Rewriter.ret failure
      end
  end.

(** *** HALInterfaceWorkgroupOpsConverter<InterfaceOpTy, XOp, YOp, ZOp> *)

(** [static_cast<int32_t>] of an [int64_t]. *)
Definition static_cast_int32 (x : Z) : Z :=
  (x + 2 ^ 31) mod 2 ^ 32 - 2 ^ 31.

Section HALInterfaceWorkgroupOpsConverter.
Context (XOp YOp ZOp : GPUIntrinsic).

Definition HALInterfaceWorkgroupOpsConverter (op : InterfaceWorkgroupOp)
    (operands : list Value) : Pattern :=
  let i32Type := getI32Type in
  let index := static_cast_int32 (getSExtValue (dimension op)) in
  let extend := λ newOp : nat,
    newOp' <- create (LLVM_SExtOp (getIntegerType 64) newOp) ;;
    replaceOp (WithValues [newOp']) ;;;
    Rewriter.ret success in
  match index with
  | 0 => newOp <- create (GPU_IntrinsicOp XOp i32Type) ;; extend newOp
  | 1 => newOp <- create (GPU_IntrinsicOp YOp i32Type) ;; extend newOp
  | 2 => newOp <- create (GPU_IntrinsicOp ZOp i32Type) ;; extend newOp
  | _ => Rewriter.ret failure
  end.

End HALInterfaceWorkgroupOpsConverter.

(** *** populateLLVMConversionPatterns

    The workgroup patterns registered for each kind of query, in
    registration order. *)
Definition populateLLVMConversionPatterns_workgroup (useROCM : bool)
  : list (InterfaceWorkgroupKind
          * (InterfaceWorkgroupOp → list Value → Pattern)) :=
  if useROCM then
    [ (InterfaceWorkgroupIDOp,
       HALInterfaceWorkgroupOpsConverter
         ROCDL_BlockIdXOp ROCDL_BlockIdYOp ROCDL_BlockIdZOp);
      (InterfaceWorkgroupCountOp,
       HALInterfaceWorkgroupOpsConverter
         ROCDL_GridDimXOp ROCDL_GridDimYOp ROCDL_GridDimZOp);
      (InterfaceWorkgroupSizeOp,
       HALInterfaceWorkgroupOpsConverter
         ROCDL_BlockDimXOp ROCDL_BlockDimYOp ROCDL_BlockDimZOp) ]
  else
    [ (InterfaceWorkgroupIDOp,
       HALInterfaceWorkgroupOpsConverter
         NVVM_BlockIdXOp NVVM_BlockIdYOp NVVM_BlockIdZOp);
      (InterfaceWorkgroupCountOp,
       HALInterfaceWorkgroupOpsConverter
         NVVM_GridDimXOp NVVM_GridDimYOp NVVM_GridDimZOp);
      (InterfaceWorkgroupSizeOp,
       HALInterfaceWorkgroupOpsConverter
         NVVM_BlockDimXOp NVVM_BlockDimYOp NVVM_BlockDimZOp) ].

End LinalgToLLVMGPU.

(** ** Vocabulary of the properties *)

Module VMVocabulary.
Import StandardToVM.

(** The relation a comparison decides and the way it reads its operands. *)
Inductive Direction := DirEQ | DirNE | DirLT | DirLTE | DirGT | DirGTE.
Inductive SignMode := SignAgnostic | SignedMode | UnsignedMode.

Definition predicate_direction (p : CmpIPredicate) : Direction :=
  match p with
  | eq => DirEQ | ne => DirNE
  | slt | ult => DirLT
  | sle | ule => DirLTE
  | sgt | ugt => DirGT
  | sge | uge => DirGTE
  end.

Definition predicate_signMode (p : CmpIPredicate) : SignMode :=
  match p with
  | eq | ne => SignAgnostic
  | slt | sle | sgt | sge => SignedMode
  | ult | ule | ugt | uge => UnsignedMode
  end.

(** The same reading of the VM comparison instructions, from their
    names: [LT]/[LTE]/[GT]/[GTE], and the [S] or [U] suffix. *)
Definition vm_direction (o : VMOp) : option Direction :=
  match o with
  | VM_CmpEQI32Op _ _ _ => Some DirEQ
  | VM_CmpNEI32Op _ _ _ => Some DirNE
  | VM_CmpLTI32SOp _ _ _ | VM_CmpLTI32UOp _ _ _ => Some DirLT
  | VM_CmpLTEI32SOp _ _ _ | VM_CmpLTEI32UOp _ _ _ => Some DirLTE
  | VM_CmpGTI32SOp _ _ _ | VM_CmpGTI32UOp _ _ _ => Some DirGT
  | VM_CmpGTEI32SOp _ _ _ | VM_CmpGTEI32UOp _ _ _ => Some DirGTE
  | _ => None
  end.

Definition vm_signMode (o : VMOp) : option SignMode :=
  match o with
  | VM_CmpEQI32Op _ _ _ | VM_CmpNEI32Op _ _ _ => Some SignAgnostic
  | VM_CmpLTI32SOp _ _ _ | VM_CmpLTEI32SOp _ _ _
  | VM_CmpGTI32SOp _ _ _ | VM_CmpGTEI32SOp _ _ _ => Some SignedMode
  | VM_CmpLTI32UOp _ _ _ | VM_CmpLTEI32UOp _ _ _
  | VM_CmpGTI32UOp _ _ _ | VM_CmpGTEI32UOp _ _ _ => Some UnsignedMode
  | _ => None
  end.

Definition vm_cmp_operands (o : VMOp) : option (Ty * Value * Value) :=
  match o with
  | VM_CmpEQI32Op t l r | VM_CmpNEI32Op t l r
  | VM_CmpLTI32SOp t l r | VM_CmpLTEI32SOp t l r
  | VM_CmpGTI32SOp t l r | VM_CmpGTEI32SOp t l r
  | VM_CmpLTI32UOp t l r | VM_CmpLTEI32UOp t l r
  | VM_CmpGTI32UOp t l r | VM_CmpGTEI32UOp t l r => Some (t, l, r)
  | _ => None
  end.

#[global] Instance CmpIPredicate_eq_dec : EqDecision CmpIPredicate.
Proof. solve_decision. Defined.

(** The six relational predicates of the comparison lowering. *)
Definition relationalPredicates : list CmpIPredicate :=
  [eq; ne; slt; ult; sle; ule].

(** The pattern replaced the matched operation by the results of the one
    operation it created, and emitted nothing else. *)
Definition replacedByNewOp (o : VMOp) : State VMOp :=
  mkState [o] (Some (WithResultsOf 0)) [].

(** The export declarations among the created operations. *)
Definition isExportOp (o : VMOp) : bool :=
  match o with VM_ExportOp _ _ => true | _ => false end.

Definition exportOps (st : State VMOp) : list VMOp :=
  filter (λ o, isExportOp o = true) (created st).

Definition VM_FuncOp_attrs (o : VMOp) : gmap string Attribute :=
  match o with
  | VM_FuncOp _ _ _ a _ => a
  | _ => ∅
  end.

Definition exportMarker : string := "iree.module.export".

(** The attributes the function conversion keeps: for each retained
    name in turn, the attribute of the source function, when it has one. *)
Definition retainedAttributesOf (attrs : gmap string Attribute)
  : gmap string Attribute :=
  foldl (λ acc name, match attrs !! name with
                     | Some attr => <[name := attr]> acc
                     | None => acc
                     end)
        ∅ kRetainedAttributes.

(** The name the companion export declaration carries. *)
Definition exportNameOf (marker : Attribute) (funcName : string) : string :=
  match marker with
  | StringAttr value => value
  | _ => funcName
  end.

(** A type converter and a function to run the patterns on: i1 and i32
    become i32, reference types stay, nothing else converts. *)
Definition exampleTypeConverter (t : Ty) : option (list Ty) :=
  match t with
  | IntegerTy it =>
      if bool_decide (signedness it = Signless)
         && ((width it =? 1) || (width it =? 32))
      then Some [getI32Type] else None
  | RefTy _ => Some [t]
  | _ => None
  end.

Definition exampleFuncOp (marker : option Attribute) : FuncOp :=
  mkFuncOp "add" [getI32Type; getIntegerType 1] [getI32Type]
    (match marker with
     | Some m => <[exportMarker := m]>
     | None => λ attrs, attrs
     end
       (<["sym_visibility"%string := StringAttr "public"]>
          (<["noinline"%string := UnitAttr]> ∅)))
    [Blk [getI32Type; getIntegerType 1] []].

End VMVocabulary.

Module GPUVocabulary.
Import LinalgToLLVMGPU.

(** A pre-order walk: an operation before the operations of its
    regions. *)
Fixpoint walk_preorder (o : Operation) : list Operation :=
  match o with
  | Op _ _ _ regions => o :: flat_map (flat_map walk_preorder_block) regions
  end
with walk_preorder_block (b : Block) : list Operation :=
  match b with
  | Blk _ ops => flat_map walk_preorder ops
  end.

Definition isa_subspan (o : Operation) : Prop :=
  isa_InterfaceBindingSubspanOp o = true.

(** The binding references of a function body met by a pre-order walk. *)
Definition bindingReferences (funcOp : FuncOp) : list Operation :=
  filter isa_subspan (flat_map walk_preorder_block (func_body funcOp)).

(** Binding references have no regions of their own. *)
Definition leafSubspans (l : list Operation) : Prop :=
  ∀ o, o ∈ l → isa_subspan o → op_regions o = [].

(** The symbol a binding reference names. *)
Definition bindingSymbol (o : Operation) : option string :=
  getAttrOfType_SymbolRefAttr o "binding".

(** The elements of a list in the order of their first occurrence. *)
Fixpoint firstOccurrences (seen : list string) (l : list string)
  : list string :=
  match l with
  | [] => []
  | x :: rest =>
      if decide (x ∈ seen) then firstOccurrences seen rest
      else x :: firstOccurrences (x :: seen) rest
  end.

(** The distinct bindings a function refers to, first-encountered order. *)
Definition distinctBindings (funcOp : FuncOp) : list string :=
  firstOccurrences [] (omap bindingSymbol (bindingReferences funcOp)).

(** The position [getArgument] is called with for a reference: the
    binding number of the declaration its symbol resolves to, passed as
    an [unsigned]. *)
Definition bindingNumber (symbols : gmap string SymbolOp) (o : Operation)
  : option nat :=
  match lookupNearestSymbolFrom symbols (bindingSymbol o) with
  | Some (InterfaceBindingOp _ binding) =>
      Some (Z.to_nat (static_cast_unsigned (getZExtValue binding)))
  | _ => None
  end.

(** The state a binding lowering leaves when it replaces the reference
    by a descriptor on the argument at position [i]. *)
Definition descriptorOn (memrefType : Ty) (i : nat) (argType : Ty)
  : State LLVMOp :=
  mkState [MemRefDescriptor_fromStaticShape memrefType
             (mkBlockArgument i argType)]
          (Some (WithValues [0%nat])) [].

(** The binding lowering of [op], nested under [llvmFuncOp], resolves
    to parameter [i]. *)
Definition resolvesToParameter (symbols : gmap string SymbolOp)
    (llvmFuncOp : LLVMOp) (op : Operation) (i : nat) : Prop :=
  ∃ memrefType argType,
    LLVMFuncOp_params llvmFuncOp !! i = Some argType
    ∧ run (ConvertIREEBindingOp symbols (Some llvmFuncOp) op [])
      = Some (success, descriptorOn memrefType i argType).

Definition isPointerTy (t : Ty) : Prop :=
  match t with LLVMPointerTy _ _ => True | _ => False end.

(** The signature-flattening property as the specification words it: one
    pointer parameter for each distinct binding, in first-encountered
    order, and each reference to the i-th of them resolved to
    parameter i. *)
Definition flattensDistinctBindings
    (convertBlockSignature : Block → option Block)
    (symbols : gmap string SymbolOp) (funcOp : FuncOp) : Prop :=
  func_isPublic funcOp = true →
  func_inputs funcOp = [] →
  ∃ st llvmFuncOp,
    run (ConvertFunc convertBlockSignature funcOp []) = Some (success, st)
    ∧ created st = [llvmFuncOp]
    ∧ length (LLVMFuncOp_params llvmFuncOp)
      = length (distinctBindings funcOp)
    ∧ Forall isPointerTy (LLVMFuncOp_params llvmFuncOp)
    ∧ ∀ i b k op,
        distinctBindings funcOp !! i = Some b →
        bindingReferences funcOp !! k = Some op →
        bindingSymbol op = Some b →
        resolvesToParameter symbols llvmFuncOp op i.

(** Example kernels. *)
Definition exampleSubspan (symbol : string) (elType : Ty) : Operation :=
  Op InterfaceBindingSubspanOp_getOperationName
     {[ "binding"%string := SymbolRefAttr symbol ]}
     [MemRefTy [Some 4] elType 0] [].

Definition exampleSymbols : gmap string SymbolOp :=
  {[ "io::arg0"%string := InterfaceBindingOp (mkAPInt 64 0) (mkAPInt 64 0);
     "io::arg1"%string := InterfaceBindingOp (mkAPInt 64 0) (mkAPInt 64 1) ]}.

Definition exampleKernel (ops : list Operation) : FuncOp :=
  mkFuncOp "kernel" [] [] true
    {[ "sym_name"%string := StringAttr "kernel" ]}
    [Blk [] (ops ++ [Op "std.return" ∅ [] []])].

(** A kernel whose references follow the binding numbers. *)
Definition kernelInOrder : FuncOp :=
  exampleKernel [exampleSubspan "io::arg0" (FloatTy 32);
                 exampleSubspan "io::arg1" getI32Type].

(** A kernel that refers to binding 1 before binding 0. *)
Definition kernelSwapped : FuncOp :=
  exampleKernel [exampleSubspan "io::arg1" getI32Type;
                 exampleSubspan "io::arg0" (FloatTy 32)].

(** A kernel that refers to one binding twice. *)
Definition kernelRepeated : FuncOp :=
  exampleKernel [exampleSubspan "io::arg0" (FloatTy 32);
                 exampleSubspan "io::arg0" (FloatTy 32)].

(** The workgroup query on an axis, as a 64-bit index attribute. *)
Definition workgroupQuery (axis : Z) : InterfaceWorkgroupOp :=
  mkInterfaceWorkgroupOp (mkAPInt 64 axis).

(** The intrinsic read followed by its sign extension to 64 bits. *)
Definition intrinsicReadExtended (intrinsic : GPUIntrinsic) : State LLVMOp :=
  mkState [GPU_IntrinsicOp intrinsic getI32Type;
           LLVM_SExtOp (getIntegerType 64) 0%nat]
          (Some (WithValues [1%nat])) [].

End GPUVocabulary.

(** ** The remaining patterns of ConvertStandardToVM.cpp *)

Module StandardToVMControl.
Import StandardToVM.

(** *** Source operations *)

(** A [ModuleTerminatorOp] with the name of its parent operation. *)
Record ModuleTerminatorOp := mkModuleTerminatorOp {
  terminator_parent : option string
}.

Definition VM_ModuleOp_getOperationName : string := "vm.module".

Record ReturnOp := mkReturnOp { }.

(** The binary arithmetic and bitwise operations: the result type. *)
Record BinaryOp := mkBinaryOp { binary_type : Ty }.

Inductive StdBinaryKind :=
| AddIOp | SignedDivIOp | UnsignedDivIOp | MulIOp | SignedRemIOp
| UnsignedRemIOp | SubIOp | AndOp | OrOp | XOrOp.

Record BranchOp := mkBranchOp { branch_dest : Block }.

Record CondBranchOp := mkCondBranchOp {
  cond_trueDest : Block;
  cond_falseDest : Block
}.

Definition getNumArguments (b : Block) : nat := length (block_args b).

(** *** Operations of the VM dialect these patterns create *)

Inductive VMInstr :=
| VM_ModuleTerminatorOp
| VM_ReturnOp (operands : list Value)
| VM_AddI32Op (result : Ty) (lhs rhs : Value)
| VM_DivI32SOp (result : Ty) (lhs rhs : Value)
| VM_DivI32UOp (result : Ty) (lhs rhs : Value)
| VM_MulI32Op (result : Ty) (lhs rhs : Value)
| VM_RemI32SOp (result : Ty) (lhs rhs : Value)
| VM_RemI32UOp (result : Ty) (lhs rhs : Value)
| VM_SubI32Op (result : Ty) (lhs rhs : Value)
| VM_AndI32Op (result : Ty) (lhs rhs : Value)
| VM_OrI32Op (result : Ty) (lhs rhs : Value)
| VM_XorI32Op (result : Ty) (lhs rhs : Value)
| VM_BranchOp (dest : Block) (operands : list Value)
| VM_CondBranchOp (condition : Value)
                  (trueDest : Block) (trueOperands : list Value)
                  (falseDest : Block) (falseOperands : list Value).

Abbreviation Pattern := (M VMInstr LogicalResult).

(** [ArrayRef::slice(N, M)], which asserts that the slice lies inside the
    array, and [ArrayRef::slice(N)], which is [slice(N, size() - N)]. *)
Definition slice (operands : list Value) (n m : nat) : M VMInstr (list Value) :=
  assert (bool_decide (n + m ≤ length operands)%nat) ;;;
  Rewriter.ret (take m (drop n operands)).

Definition slice_from (operands : list Value) (n : nat)
  : M VMInstr (list Value) :=
  slice operands n (length operands - n).

(** *** ModuleTerminatorOpConversion

    [isa<>] asserts that the parent exists. *)
Definition ModuleTerminatorOpConversion (srcOp : ModuleTerminatorOp)
    (operands : list Value) : Pattern :=
  match terminator_parent srcOp with
  | None => assert false ;;; Rewriter.ret failure
  | Some parent =>
      if negb (bool_decide (parent = VM_ModuleOp_getOperationName))
      then Rewriter.ret failure
      else
        replaceOpWithNewOp VM_ModuleTerminatorOp ;;;
        Rewriter.ret success
  end.

(** *** ReturnOpConversion *)
Definition ReturnOpConversion (srcOp : ReturnOp) (operands : list Value)
  : Pattern :=
  replaceOpWithNewOp (VM_ReturnOp operands) ;;;
  Rewriter.ret success.

(** *** BinaryArithmeticOpConversion<SrcOpTy, DstOpTy> *)
Section BinaryArithmeticOpConversion.
Context (DstOpTy : Ty → Value → Value → VMInstr).

Definition BinaryArithmeticOpConversion (srcOp : BinaryOp)
    (operands : list Value) : Pattern :=
  lhs <- operandAt operands 0 ;;
  rhs <- operandAt operands 1 ;;
  replaceOpWithNewOp (DstOpTy (binary_type srcOp) lhs rhs) ;;;
  Rewriter.ret success.

End BinaryArithmeticOpConversion.

(** *** BranchOpConversion *)
Definition BranchOpConversion (srcOp : BranchOp) (operands : list Value)
  : Pattern :=
  replaceOpWithNewOp (VM_BranchOp (branch_dest srcOp) operands) ;;;
  Rewriter.ret success.

(** *** CondBranchOpConversion *)
Definition CondBranchOpConversion (srcOp : CondBranchOp)
    (operands : list Value) : Pattern :=
  let trueDest := cond_trueDest srcOp in
  condition <- operandAt operands 0 ;;
  trueOperands <- slice operands 1 (getNumArguments trueDest) ;;
  falseOperands <- slice_from operands (1 + getNumArguments trueDest) ;;
  replaceOpWithNewOp
    (VM_CondBranchOp condition trueDest trueOperands
                     (cond_falseDest srcOp) falseOperands) ;;;
  Rewriter.ret success.

(** *** populateStandardToVMPatterns

    The binary arithmetic patterns, by source operation, in registration
    order. *)
Definition populateStandardToVMPatterns_binary
  : list (StdBinaryKind * (BinaryOp → list Value → Pattern)) :=
  [ (AddIOp, BinaryArithmeticOpConversion VM_AddI32Op);
    (SignedDivIOp, BinaryArithmeticOpConversion VM_DivI32SOp);
    (UnsignedDivIOp, BinaryArithmeticOpConversion VM_DivI32UOp);
    (MulIOp, BinaryArithmeticOpConversion VM_MulI32Op);
    (SignedRemIOp, BinaryArithmeticOpConversion VM_RemI32SOp);
    (UnsignedRemIOp, BinaryArithmeticOpConversion VM_RemI32UOp);
    (SubIOp, BinaryArithmeticOpConversion VM_SubI32Op);
    (AndOp, BinaryArithmeticOpConversion VM_AndI32Op);
    (OrOp, BinaryArithmeticOpConversion VM_OrI32Op);
    (XOrOp, BinaryArithmeticOpConversion VM_XorI32Op) ].

End StandardToVMControl.

(** ** Vocabulary of the further properties *)

Module ControlVocabulary.
Import StandardToVM StandardToVMControl VMVocabulary.

(** The arithmetic a binary operation computes. *)
Inductive Arithmetic :=
| ArithAdd | ArithDiv | ArithMul | ArithRem | ArithSub
| ArithAnd | ArithOr | ArithXor.

Definition source_arithmetic (k : StdBinaryKind) : Arithmetic * SignMode :=
  match k with
  | AddIOp => (ArithAdd, SignAgnostic)
  | SignedDivIOp => (ArithDiv, SignedMode)
  | UnsignedDivIOp => (ArithDiv, UnsignedMode)
  | MulIOp => (ArithMul, SignAgnostic)
  | SignedRemIOp => (ArithRem, SignedMode)
  | UnsignedRemIOp => (ArithRem, UnsignedMode)
  | SubIOp => (ArithSub, SignAgnostic)
  | AndOp => (ArithAnd, SignAgnostic)
  | OrOp => (ArithOr, SignAgnostic)
  | XOrOp => (ArithXor, SignAgnostic)
  end.

(** The same reading of the VM instructions, from their names. *)
Definition vm_arithmetic (o : VMInstr) : option (Arithmetic * SignMode) :=
  match o with
  | VM_AddI32Op _ _ _ => Some (ArithAdd, SignAgnostic)
  | VM_DivI32SOp _ _ _ => Some (ArithDiv, SignedMode)
  | VM_DivI32UOp _ _ _ => Some (ArithDiv, UnsignedMode)
  | VM_MulI32Op _ _ _ => Some (ArithMul, SignAgnostic)
  | VM_RemI32SOp _ _ _ => Some (ArithRem, SignedMode)
  | VM_RemI32UOp _ _ _ => Some (ArithRem, UnsignedMode)
  | VM_SubI32Op _ _ _ => Some (ArithSub, SignAgnostic)
  | VM_AndI32Op _ _ _ => Some (ArithAnd, SignAgnostic)
  | VM_OrI32Op _ _ _ => Some (ArithOr, SignAgnostic)
  | VM_XorI32Op _ _ _ => Some (ArithXor, SignAgnostic)
  | _ => None
  end.

Definition vm_binary_operands (o : VMInstr) : option (Ty * Value * Value) :=
  match o with
  | VM_AddI32Op t l r | VM_DivI32SOp t l r | VM_DivI32UOp t l r
  | VM_MulI32Op t l r | VM_RemI32SOp t l r | VM_RemI32UOp t l r
  | VM_SubI32Op t l r | VM_AndI32Op t l r | VM_OrI32Op t l r
  | VM_XorI32Op t l r => Some (t, l, r)
  | _ => None
  end.

(** The pattern replaced the matched operation by the results of the one
    instruction it created. *)
Definition replacedByNewInstr (o : VMInstr) : State VMInstr :=
  mkState [o] (Some (WithResultsOf 0)) [].

(** The four predicates beside the six relational ones. *)
Definition greaterPredicates : list CmpIPredicate := [sgt; sge; ugt; uge].

End ControlVocabulary.

Module GPUTableVocabulary.
Import LinalgToLLVMGPU GPUVocabulary.

Inductive Backend := ROCDL | NVVM.
Inductive Quantity := BlockId | GridDim | BlockDim.

(** The reading of the intrinsics, from their names. *)
Definition intrinsic_backend (i : GPUIntrinsic) : Backend :=
  match i with
  | ROCDL_BlockIdXOp | ROCDL_BlockIdYOp | ROCDL_BlockIdZOp
  | ROCDL_GridDimXOp | ROCDL_GridDimYOp | ROCDL_GridDimZOp
  | ROCDL_BlockDimXOp | ROCDL_BlockDimYOp | ROCDL_BlockDimZOp => ROCDL
  | _ => NVVM
  end.

Definition intrinsic_quantity (i : GPUIntrinsic) : Quantity :=
  match i with
  | ROCDL_BlockIdXOp | ROCDL_BlockIdYOp | ROCDL_BlockIdZOp
  | NVVM_BlockIdXOp | NVVM_BlockIdYOp | NVVM_BlockIdZOp => BlockId
  | ROCDL_GridDimXOp | ROCDL_GridDimYOp | ROCDL_GridDimZOp
  | NVVM_GridDimXOp | NVVM_GridDimYOp | NVVM_GridDimZOp => GridDim
  | _ => BlockDim
  end.

Definition intrinsic_axis (i : GPUIntrinsic) : Z :=
  match i with
  | ROCDL_BlockIdXOp | ROCDL_GridDimXOp | ROCDL_BlockDimXOp
  | NVVM_BlockIdXOp | NVVM_GridDimXOp | NVVM_BlockDimXOp => 0
  | ROCDL_BlockIdYOp | ROCDL_GridDimYOp | ROCDL_BlockDimYOp
  | NVVM_BlockIdYOp | NVVM_GridDimYOp | NVVM_BlockDimYOp => 1
  | _ => 2
  end.

(** The workgroup id is the block id, the workgroup count the grid
    dimension, the workgroup size the block dimension. *)
Definition query_quantity (k : InterfaceWorkgroupKind) : Quantity :=
  match k with
  | InterfaceWorkgroupIDOp => BlockId
  | InterfaceWorkgroupCountOp => GridDim
  | InterfaceWorkgroupSizeOp => BlockDim
  end.

Definition backendOf (useROCM : bool) : Backend :=
  if useROCM then ROCDL else NVVM.

(** The names [ConvertFunc] leaves out of the attributes it copies. *)
Definition skippedAttributes : list string :=
  [SymbolTable_getSymbolAttrName; function_like_impl_getTypeAttrName].

Definition LLVMFuncOp_attrs (o : LLVMOp) : gmap string Attribute :=
  match o with
  | LLVM_LLVMFuncOp _ _ _ _ a _ => a
  | _ => ∅
  end.

(** A reference with a dynamic dimension, and a private kernel. *)
Definition exampleDynamicSubspan (symbol : string) : Operation :=
  Op InterfaceBindingSubspanOp_getOperationName
     {[ "binding"%string := SymbolRefAttr symbol ]}
     [MemRefTy [None; Some 4] (FloatTy 32) 0] [].

Definition examplePrivateKernel : FuncOp :=
  mkFuncOp "helper" [] [] false ∅
    [Blk [] [exampleSubspan "io::arg0" (FloatTy 32)]].

End GPUTableVocabulary.

(** ** Properties of the StandardToVM patterns *)

Module VMProperties.
Import StandardToVM VMVocabulary.

Lemma CmpIOpConversion_total (p : CmpIPredicate) (lhs rhs : Value) :
  ∃ o, run (CmpIOpConversion (mkCmpIOp p) [lhs; rhs])
       = Some (success, replacedByNewOp o)
     ∧ vm_direction o = Some (predicate_direction p)
     ∧ vm_signMode o = Some (predicate_signMode p)
     ∧ vm_cmp_operands o = Some (getIntegerType 32, lhs, rhs).
Proof.
  destruct p; eexists; (split; [cbv; reflexivity |]); repeat split.
Qed.

(** C2: each of the six relational predicates is rewritten to the VM
    comparison of the same direction and the same signedness, on the same
    operands; so no unsigned predicate yields a signed instruction, and
    no signed predicate an unsigned one. *)
Theorem CmpIOpConversion_predicate_fidelity
    (p : CmpIPredicate) (lhs rhs : Value) :
  p ∈ relationalPredicates →
  ∃ o, run (CmpIOpConversion (mkCmpIOp p) [lhs; rhs])
       = Some (success, replacedByNewOp o)
     ∧ vm_direction o = Some (predicate_direction p)
     ∧ vm_signMode o = Some (predicate_signMode p)
     ∧ vm_cmp_operands o = Some (getIntegerType 32, lhs, rhs)
     ∧ (predicate_signMode p = UnsignedMode →
        vm_signMode o ≠ Some SignedMode)
     ∧ (predicate_signMode p = SignedMode →
        vm_signMode o ≠ Some UnsignedMode).
Proof.
  intros _.
  destruct (CmpIOpConversion_total p lhs rhs) as (o & Hrun & Hd & Hs & Hops).
  exists o. repeat split; try assumption.
  - intros Hu. rewrite Hs, Hu. discriminate.
  - intros Hu. rewrite Hs, Hu. discriminate.
Qed.

Lemma CmpIOpConversion_predicate_fidelity_witness :
  ule ∈ relationalPredicates
  ∧ ∃ o, run (CmpIOpConversion (mkCmpIOp ule)
                [mkValue 0 getI32Type None; mkValue 1 getI32Type None])
         = Some (success, replacedByNewOp o)
       ∧ vm_direction o = Some DirLTE
       ∧ vm_signMode o = Some UnsignedMode.
Proof.
  assert (Hin : ule ∈ relationalPredicates)
    by (apply (bool_decide_unpack _); vm_compute; exact I).
  split; [exact Hin |].
  destruct (CmpIOpConversion_predicate_fidelity ule
              (mkValue 0 getI32Type None) (mkValue 1 getI32Type None) Hin)
    as (o & H1 & H2 & H3 & _).
  exists o. auto.
Defined.

(** The template, for any destination operation and any width. *)
Lemma ShiftArithmeticOpConversion_run
    (DstOpTy : Ty → Value → Attribute → VMOp) (kBits : Z)
    (srcOp : ShiftLeftOp) (lhs rhs : Value) :
  run (ShiftArithmeticOpConversion DstOpTy kBits srcOp [lhs; rhs])
  = if isSignlessInteger (shift_type srcOp)
       && bool_decide (getIntOrFloatBitWidth (shift_type srcOp) = Some kBits)
    then match matchPattern_m_ConstantInt rhs with
         | Some amount =>
             if getZExtValue amount >? kBits then Some (failure, initial)
             else Some (success,
                        replacedByNewOp
                          (DstOpTy (shift_type srcOp) lhs
                             (IntegerAttr (getIntegerType 8)
                                          (getZExtValue amount))))
         | None => Some (failure, initial)
         end
    else Some (failure, initial).
Proof.
  unfold ShiftArithmeticOpConversion.
  destruct (isSignlessInteger (shift_type srcOp)); cbn; [| reflexivity].
  case_bool_decide; cbn; [| reflexivity].
  unfold run, Rewriter.bind, operandAt; cbn.
  destruct (matchPattern_m_ConstantInt rhs) as [amount |]; [| reflexivity].
  destruct (getZExtValue amount >? kBits); reflexivity.
Qed.

(** C3: the shift lowering succeeds only on a signless integer of width
    32 whose shift amount is a constant not above 32, and then carries
    the amount unchanged; it declines when the amount is not a constant,
    when the constant exceeds 32, and when the type is not a signless
    integer of width 32. *)
Theorem ShiftArithmeticOpConversion_declines_out_of_range
    (srcOp : ShiftLeftOp) (lhs rhs : Value) :
  let r := run (ShiftLeftOpConversion srcOp [lhs; rhs]) in
  (∀ st, r = Some (success, st) →
     isSignlessInteger (shift_type srcOp) = true
     ∧ getIntOrFloatBitWidth (shift_type srcOp) = Some 32
     ∧ ∃ amount, matchPattern_m_ConstantInt rhs = Some amount
         ∧ getZExtValue amount ≤ 32
         ∧ st = replacedByNewOp
                  (VM_ShlI32Op (shift_type srcOp) lhs
                     (IntegerAttr (getIntegerType 8) (getZExtValue amount))))
  ∧ (matchPattern_m_ConstantInt rhs = None → r = Some (failure, initial))
  ∧ (∀ amount, matchPattern_m_ConstantInt rhs = Some amount →
       32 < getZExtValue amount → r = Some (failure, initial))
  ∧ (getIntOrFloatBitWidth (shift_type srcOp) ≠ Some 32 →
       r = Some (failure, initial))
  ∧ (isSignlessInteger (shift_type srcOp) = false →
       r = Some (failure, initial))
  ∧ (∀ amount, isSignlessInteger (shift_type srcOp) = true →
       getIntOrFloatBitWidth (shift_type srcOp) = Some 32 →
       matchPattern_m_ConstantInt rhs = Some amount →
       getZExtValue amount ≤ 32 →
       ∃ st, r = Some (success, st)).
Proof.
  cbn zeta. unfold ShiftLeftOpConversion.
  rewrite ShiftArithmeticOpConversion_run.
  repeat apply conj.
  - intros st.
    destruct (isSignlessInteger (shift_type srcOp)); cbn; [| discriminate].
    case_bool_decide as Hw; cbn; [| discriminate].
    destruct (matchPattern_m_ConstantInt rhs) as [amount |]; [| discriminate].
    destruct (Z.gtb_spec (getZExtValue amount) 32) as [Hgt | Hle];
      [discriminate |].
    intros [= <-]. eauto 10.
  - intros ->.
    destruct (_ && _); reflexivity.
  - intros amount -> Hlt.
    destruct (_ && _); [| reflexivity].
    destruct (Z.gtb_spec (getZExtValue amount) 32); [reflexivity | lia].
  - intros Hw.
    rewrite (bool_decide_eq_false_2 _ Hw), andb_false_r. reflexivity.
  - intros ->. reflexivity.
  - intros amount -> Hw -> Hle.
    rewrite (bool_decide_eq_true_2 _ Hw). cbn.
    destruct (Z.gtb_spec (getZExtValue amount) 32); [lia | eauto].
Qed.

Lemma ShiftArithmeticOpConversion_declines_out_of_range_witness :
  let rhs := mkValue 1 getI32Type (Some (mkAPInt 32 33)) in
  matchPattern_m_ConstantInt rhs = Some (mkAPInt 32 33)
  ∧ 32 < getZExtValue (mkAPInt 32 33)
  ∧ run (ShiftLeftOpConversion (mkShiftLeftOp getI32Type)
           [mkValue 0 getI32Type None; rhs])
    = Some (failure, initial).
Proof.
  cbn zeta.
  pose proof (ShiftArithmeticOpConversion_declines_out_of_range
                (mkShiftLeftOp getI32Type) (mkValue 0 getI32Type None)
                (mkValue 1 getI32Type (Some (mkAPInt 32 33)))) as H.
  cbn zeta in H. destruct H as (_ & _ & H & _).
  split; [reflexivity |]. split; [reflexivity |].
  apply (H (mkAPInt 32 33)); [reflexivity | reflexivity].
Defined.

Lemma ConstantOpConversion_run_integer
    (srcOp : ConstantOp) (operands : list Value)
    (ty : Ty) (bits : Z) (numBits : Z) :
  const_value srcOp = IntegerAttr ty bits →
  getIntOrFloatBitWidth ty = Some numBits →
  run (ConstantOpConversion srcOp operands)
  = if (numBits =? 1) || (numBits =? 32)
    then Some (success,
               replacedByNewOp
                 (if IntegerAttr_getInt ty bits =? 0 then VM_ConstI32ZeroOp
                  else VM_ConstI32Op (IntegerAttr_getInt ty bits)))
    else Some (failure,
               mkState [] None
                 ["unsupported bit width for dialect constant"%string]).
Proof.
  intros Hv Hw. unfold ConstantOpConversion. rewrite Hv, Hw.
  destruct (numBits =? 1), (numBits =? 32); cbn; try reflexivity;
    destruct (IntegerAttr_getInt ty bits =? 0); reflexivity.
Qed.

Lemma ConstantOpConversion_run_no_width
    (srcOp : ConstantOp) (operands : list Value) (ty : Ty) (bits : Z) :
  const_value srcOp = IntegerAttr ty bits →
  getIntOrFloatBitWidth ty = None →
  run (ConstantOpConversion srcOp operands) = None.
Proof.
  intros Hv Hw. unfold ConstantOpConversion. rewrite Hv, Hw. reflexivity.
Qed.

Lemma ConstantOpConversion_run_other
    (srcOp : ConstantOp) (operands : list Value) :
  (∀ ty bits, const_value srcOp ≠ IntegerAttr ty bits) →
  run (ConstantOpConversion srcOp operands)
  = Some (failure,
          mkState [] None ["unsupported const type for dialect"%string]).
Proof.
  intros Hv. unfold ConstantOpConversion.
  destruct (const_value srcOp) as [| s | ty bits | ty r | ty | s | es];
    try reflexivity.
  destruct (Hv ty bits eq_refl).
Qed.

(** On a constant whose value is not an integer attribute of a type
    without a bit width, the constant lowering succeeds exactly on an
    integer attribute of width 1 or 32 and declines, rewriting nothing,
    otherwise; on success the value zero becomes the zero-constant
    instruction and any other value the 32-bit constant instruction
    carrying that value. *)
Lemma ConstantOpConversion_zero_specialization
    (srcOp : ConstantOp) (operands : list Value) :
  (∀ ty bits, const_value srcOp = IntegerAttr ty bits →
     is_Some (getIntOrFloatBitWidth ty)) →
  ∃ r st, run (ConstantOpConversion srcOp operands) = Some (r, st)
  ∧ (r = success ↔
       ∃ ty bits, const_value srcOp = IntegerAttr ty bits
                  ∧ (getIntOrFloatBitWidth ty = Some 1
                     ∨ getIntOrFloatBitWidth ty = Some 32))
  ∧ (r = failure ↔ r ≠ success)
  ∧ (r = failure → created st = [] ∧ replaced st = None)
  ∧ (∀ ty bits, r = success → const_value srcOp = IntegerAttr ty bits →
       (IntegerAttr_getInt ty bits = 0 →
          st = replacedByNewOp VM_ConstI32ZeroOp)
       ∧ (IntegerAttr_getInt ty bits ≠ 0 →
          st = replacedByNewOp (VM_ConstI32Op (IntegerAttr_getInt ty bits)))).
Proof.
  intros Hwidth.
  destruct (const_value srcOp) as [| s | ty bits | ty r | ty | s | es] eqn:Hv.
  3: {
    destruct (Hwidth ty bits eq_refl) as [numBits Hw].
    rewrite (ConstantOpConversion_run_integer srcOp operands ty bits
               numBits Hv Hw).
    destruct (Z.eqb_spec numBits 1) as [H1 | H1];
      destruct (Z.eqb_spec numBits 32) as [H32 | H32]; cbn.
    4: {
      exists failure. eexists. split; [reflexivity |].
      repeat apply conj; try done.
      intros (ty' & bits' & [= <- <-] & Hw'). rewrite Hw in Hw'.
      destruct Hw' as [[= ->] | [= ->]]; done.
    }
    all: exists success; eexists; (split; [reflexivity |]);
      repeat apply conj; try done;
      [ intros _; exists ty, bits; subst numBits; eauto
      | intros ty' bits' _ [= <- <-]; split; intros H0;
        [ rewrite H0; reflexivity
        | destruct (Z.eqb_spec (IntegerAttr_getInt ty bits) 0); done ] ].
  }
  all: rewrite ConstantOpConversion_run_other by (rewrite Hv; done);
    exists failure; eexists; (split; [reflexivity |]);
    repeat apply conj; try done;
    intros (ty' & bits' & Heq & _); done.
Qed.

Lemma ConstantOpConversion_zero_specialization_witness :
  run (ConstantOpConversion
         (mkConstantOp (IntegerAttr (getIntegerType 32) 7)) [])
  = Some (success, replacedByNewOp (VM_ConstI32Op 7)).
Proof.
  destruct (ConstantOpConversion_zero_specialization
              (mkConstantOp (IntegerAttr (getIntegerType 32) 7)) [])
    as (r & st & Hrun & Hsucc & _ & _ & Hval).
  { intros ty bits [= <- <-]. by eexists. }
  assert (Hr : r = success).
  { apply Hsucc. exists (getIntegerType 32), 7.
    split; [reflexivity | right; reflexivity]. }
  rewrite Hrun, Hr.
  destruct (Hval (getIntegerType 32) 7 Hr eq_refl) as [_ Hnz].
  rewrite Hnz; [reflexivity | vm_compute; discriminate].
Defined.

(** C4: an index-typed integer constant is an integer attribute of
    neither width 1 nor width 32, yet the constant lowering does not
    decline on it: the bit-width query, which the pattern makes on the
    index type before it can emit its remark, violates its assertion,
    whatever the value and the operands. *)
Theorem ConstantOpConversion_index_constant
    (bits : Z) (operands : list Value) :
  getIntOrFloatBitWidth IndexTy = None
  ∧ run (ConstantOpConversion (mkConstantOp (IntegerAttr IndexTy bits))
           operands) = None
  ∧ run (ConstantOpConversion (mkConstantOp (IntegerAttr IndexTy bits))
           operands) ≠ Some (failure, initial).
Proof.
  split; [reflexivity |].
  rewrite (ConstantOpConversion_run_no_width
             (mkConstantOp (IntegerAttr IndexTy bits)) operands IndexTy bits
             eq_refl eq_refl).
  split; [reflexivity | discriminate].
Qed.

(** C10: the select lowering succeeds exactly when the converted
    true-value operand has type i32, and then creates the 32-bit select
    on the condition, the true value and the false value in that order;
    otherwise it declines and rewrites nothing. *)
Theorem SelectI32OpConversion_requires_i32
    (srcOp : SelectOp) (condition true_value false_value : Value) :
  let r := run (SelectI32OpConversion srcOp
                  [condition; true_value; false_value]) in
  (val_type true_value = getI32Type →
     r = Some (success,
               replacedByNewOp
                 (VM_SelectI32Op getI32Type
                    condition true_value false_value)))
  ∧ (val_type true_value ≠ getI32Type → r = Some (failure, initial))
  ∧ (∀ st, r = Some (success, st) → val_type true_value = getI32Type).
Proof.
  cbn zeta. unfold SelectI32OpConversion, run, Rewriter.bind, operandAt. cbn.
  case_bool_decide as Hty; cbn.
  - repeat apply conj; [done | done | intros st [=] ].
  - repeat apply conj; done.
Qed.

Lemma SelectI32OpConversion_requires_i32_witness :
  let c := mkValue 0 (getIntegerType 1) None in
  let t := mkValue 1 getI32Type None in
  let f := mkValue 2 getI32Type None in
  val_type t = getI32Type
  ∧ run (SelectI32OpConversion (mkSelectOp getI32Type) [c; t; f])
    = Some (success, replacedByNewOp (VM_SelectI32Op getI32Type c t f)).
Proof.
  cbn zeta. split; [reflexivity |].
  apply (SelectI32OpConversion_requires_i32 (mkSelectOp getI32Type)).
  reflexivity.
Defined.

(** C8: the module pattern declines, rewriting nothing, for a module
    without a parent or whose parent is not a module; for a module nested
    in a module it succeeds, creating one VM module that holds the body
    region of the source module. *)
Theorem ModuleOpConversion_declines_top_level
    (srcOp : ModuleOp) (operands : list Value) :
  let r := run (ModuleOpConversion srcOp operands) in
  (module_parent srcOp = None → r = Some (failure, initial))
  ∧ (∀ p, module_parent srcOp = Some p →
       p ≠ ModuleOp_getOperationName →
       r = Some (failure, initial))
  ∧ (module_parent srcOp = Some ModuleOp_getOperationName →
       r = Some (success,
                 mkState [VM_ModuleOp (default "module"%string
                                               (module_name srcOp))
                                      (module_body srcOp)]
                         (Some (WithValues [])) []))
  ∧ (∀ st, r = Some (success, st) →
       module_parent srcOp = Some ModuleOp_getOperationName).
Proof.
  cbn zeta. unfold ModuleOpConversion, isa_ModuleOp.
  destruct (module_parent srcOp) as [p |]; cbn.
  - case_bool_decide as Hp; cbn.
    + subst p. repeat apply conj.
      * intros [=].
      * intros p [= <-] Hne. done.
      * intros _. destruct (module_name srcOp); reflexivity.
      * reflexivity.
    + repeat apply conj.
      * intros [=].
      * reflexivity.
      * intros [= ->]. done.
      * intros st [=].
  - repeat apply conj;
      [reflexivity | intros p [=] | intros [=] | intros st [=] ].
Qed.

Lemma ModuleOpConversion_declines_top_level_witness :
  module_parent (mkModuleOp None (Some "m"%string) []) = None
  ∧ run (ModuleOpConversion (mkModuleOp None (Some "m"%string) []) [])
    = Some (failure, initial).
Proof.
  split; [reflexivity |].
  apply (ModuleOpConversion_declines_top_level
           (mkModuleOp None (Some "m"%string) []) []).
  reflexivity.
Defined.

(** The cases of the two retained attributes on a source dictionary. *)
Ltac retained_cases attrs :=
  destruct (attrs !! "iree.reflection"%string) eqn:?;
  destruct (attrs !! "sym_visibility"%string) eqn:?.

Section WithTypeConverter.
Context (convertTypeN : Ty → option (list Ty)).

Lemma convertResultTypes_mapM (types resultTypes : list Ty) :
  convertResultTypes convertTypeN types resultTypes
  = (λ l, resultTypes ++ l) <$> mapM (convertType convertTypeN) types.
Proof.
  revert resultTypes.
  induction types as [| t types IH]; intros resultTypes; cbn.
  - by rewrite app_nil_r.
  - destruct (convertType convertTypeN t) as [t' |]; cbn; [| reflexivity].
    rewrite IH.
    destruct (mapM (convertType convertTypeN) types) as [l |]; cbn;
      [| reflexivity].
    by rewrite <- app_assoc.
Qed.

(** C9: the call lowering converts every result type of the call; it
    declines, rewriting nothing, as soon as one of them does not convert,
    and otherwise creates the VM call with the same callee, the converted
    result types in order and the operands in the order received. *)
Theorem CallOpConversion_result_types
    (srcOp : CallOp) (operands : list Value) :
  let r := run (CallOpConversion convertTypeN srcOp operands) in
  (∀ t, t ∈ call_resultTypes srcOp → convertType convertTypeN t = None →
     r = Some (failure, initial))
  ∧ ((∀ t, t ∈ call_resultTypes srcOp →
        is_Some (convertType convertTypeN t)) →
     ∃ resultTypes,
       Forall2 (λ t t', convertType convertTypeN t = Some t')
               (call_resultTypes srcOp) resultTypes
       ∧ r = Some (success,
                   replacedByNewOp
                     (VM_CallOp (call_callee srcOp) resultTypes operands))).
Proof.
  cbn zeta. unfold CallOpConversion. rewrite convertResultTypes_mapM.
  split.
  - intros t Hin Hnone.
    assert (Hm : mapM (convertType convertTypeN) (call_resultTypes srcOp)
                 = None).
    { apply mapM_None, Exists_exists. eauto. }
    rewrite Hm. reflexivity.
  - intros Hall.
    assert (Hm : is_Some (mapM (convertType convertTypeN)
                               (call_resultTypes srcOp))).
    { apply mapM_is_Some, Forall_forall. exact Hall. }
    destruct Hm as [resultTypes Hm]. rewrite Hm.
    exists resultTypes. split; [by apply mapM_Some |]. reflexivity.
Qed.

Lemma retainedAttributesOf_lookup
    (attrs : gmap string Attribute) (name : string) :
  retainedAttributesOf attrs !! name
  = if decide (name ∈ kRetainedAttributes) then attrs !! name else None.
Proof.
  unfold retainedAttributesOf, kRetainedAttributes. cbn [foldl].
  destruct (decide (name = "iree.reflection"%string)) as [-> | Hn1].
  { rewrite decide_True by (rewrite !elem_of_cons; tauto).
    retained_cases attrs; by simplify_map_eq. }
  destruct (decide (name = "sym_visibility"%string)) as [-> | Hn2].
  { rewrite decide_True by (rewrite !elem_of_cons; tauto).
    retained_cases attrs; by simplify_map_eq. }
  rewrite decide_False
    by (rewrite !elem_of_cons, elem_of_nil; tauto).
  retained_cases attrs; by simplify_map_eq.
Qed.

(** What a successful run of the function conversion has done. *)
Lemma FuncOpConversion_success_inv
    (srcOp : FuncOp) (operands : list Value) (st : State VMOp) :
  run (FuncOpConversion convertTypeN srcOp operands) = Some (success, st) →
  ∃ sc results,
    convertArguments convertTypeN 0 (func_inputs srcOp)
      (SignatureConversion_new (length (func_inputs srcOp))) = Some sc
    ∧ convertTypes convertTypeN (func_results srcOp) [] = Some results
    ∧ created st
      = VM_FuncOp (func_name srcOp) (getConvertedTypes sc) results
          (retainedAttributesOf (func_attrs srcOp))
          (applySignatureConversion sc (func_body srcOp))
        :: match func_attrs srcOp !! exportMarker with
           | Some marker =>
               [VM_ExportOp (func_name srcOp)
                            (exportNameOf marker (func_name srcOp))]
           | None => []
           end
    ∧ (∀ marker, func_attrs srcOp !! exportMarker = Some marker →
         (∃ value, marker = StringAttr value) ∨ marker = UnitAttr)
    ∧ replaced st = Some (WithValues []).
Proof.
  unfold FuncOpConversion, exportMarker, retainedAttributesOf,
    kRetainedAttributes.
  cbn [retainAttributes foldl].
  destruct (convertArguments _ _ _ _) as [sc |]; [| intros [=] ].
  destruct (convertTypes _ _ _) as [results |]; [| intros [=] ].
  retained_cases (func_attrs srcOp);
    destruct (func_attrs srcOp !! "iree.module.export"%string)
      as [marker |];
    try destruct marker;
    intros [= <-]; exists sc, results;
    (repeat apply conj; try reflexivity; intros m [= <-]; eauto).
Qed.

(** The function conversion does succeed when the types convert and the
    export marker, if any, is a string or a unit attribute. *)
Lemma FuncOpConversion_succeeds
    (srcOp : FuncOp) (operands : list Value) :
  is_Some (convertArguments convertTypeN 0 (func_inputs srcOp)
             (SignatureConversion_new (length (func_inputs srcOp)))) →
  is_Some (convertTypes convertTypeN (func_results srcOp) []) →
  (∀ marker, func_attrs srcOp !! exportMarker = Some marker →
     (∃ value, marker = StringAttr value) ∨ marker = UnitAttr) →
  ∃ st, run (FuncOpConversion convertTypeN srcOp operands)
        = Some (success, st).
Proof.
  intros [sc Hsc] [results Hres] Hmarker.
  unfold FuncOpConversion, exportMarker, kRetainedAttributes in *.
  cbn [retainAttributes]. rewrite Hsc, Hres.
  retained_cases (func_attrs srcOp);
    destruct (func_attrs srcOp !! "iree.module.export"%string)
      as [marker |];
    try (destruct (Hmarker marker eq_refl) as [[value ->] | ->]);
    eexists; reflexivity.
Qed.

(** An export marker of another kind violates the assertion of the
    pattern. *)
Lemma FuncOpConversion_marker_assert
    (srcOp : FuncOp) (operands : list Value) (marker : Attribute) :
  is_Some (convertArguments convertTypeN 0 (func_inputs srcOp)
             (SignatureConversion_new (length (func_inputs srcOp)))) →
  is_Some (convertTypes convertTypeN (func_results srcOp) []) →
  func_attrs srcOp !! exportMarker = Some marker →
  (∀ value, marker ≠ StringAttr value) → marker ≠ UnitAttr →
  run (FuncOpConversion convertTypeN srcOp operands) = None.
Proof.
  intros [sc Hsc] [results Hres] Hmarker Hstr Hunit.
  unfold FuncOpConversion, exportMarker, kRetainedAttributes in *.
  cbn [retainAttributes]. rewrite Hsc, Hres, Hmarker.
  retained_cases (func_attrs srcOp);
    destruct marker; try reflexivity;
    solve [ destruct (Hstr _ eq_refl) | destruct (Hunit eq_refl) ].
Qed.

(** C6: the VM function a successful function conversion creates has
    the reflection attribute and the visibility attribute exactly as the
    source function has them (present with the same value, or absent),
    and has no attribute under any other name. *)
Theorem FuncOpConversion_attribute_allow_list
    (srcOp : FuncOp) (operands : list Value) (st : State VMOp) :
  run (FuncOpConversion convertTypeN srcOp operands) = Some (success, st) →
  ∃ inputs results attrs body exports,
    created st
    = VM_FuncOp (func_name srcOp) inputs results attrs body :: exports
    ∧ Forall (λ o, isExportOp o = true) exports
    ∧ attrs !! "iree.reflection"%string
      = func_attrs srcOp !! "iree.reflection"%string
    ∧ attrs !! "sym_visibility"%string
      = func_attrs srcOp !! "sym_visibility"%string
    ∧ (∀ name, name ≠ "iree.reflection"%string →
         name ≠ "sym_visibility"%string → attrs !! name = None).
Proof.
  intros Hrun.
  destruct (FuncOpConversion_success_inv srcOp operands st Hrun)
    as (sc & results & _ & _ & Hcreated & _ & _).
  do 5 eexists. split; [exact Hcreated |].
  repeat apply conj.
  - destruct (func_attrs srcOp !! exportMarker);
      repeat constructor.
  - rewrite retainedAttributesOf_lookup. reflexivity.
  - rewrite retainedAttributesOf_lookup. reflexivity.
  - intros name Hn1 Hn2. rewrite retainedAttributesOf_lookup.
    rewrite decide_False; [reflexivity |].
    unfold kRetainedAttributes. rewrite !elem_of_cons, elem_of_nil. tauto.
Qed.

(** C7: after a successful function conversion the created operations
    hold exactly one export declaration when the source function has the
    export marker, none when it has not; the declaration refers to the
    converted function and carries the value of the marker when the
    marker is a string attribute, and the name of the function
    otherwise. *)
Theorem FuncOpConversion_export_declaration
    (srcOp : FuncOp) (operands : list Value) (st : State VMOp) :
  run (FuncOpConversion convertTypeN srcOp operands) = Some (success, st) →
  (∀ value, func_attrs srcOp !! exportMarker = Some (StringAttr value) →
     exportOps st = [VM_ExportOp (func_name srcOp) value])
  ∧ (∀ marker, func_attrs srcOp !! exportMarker = Some marker →
       (∀ value, marker ≠ StringAttr value) →
       exportOps st = [VM_ExportOp (func_name srcOp) (func_name srcOp)])
  ∧ (func_attrs srcOp !! exportMarker = None → exportOps st = []).
Proof.
  intros Hrun.
  destruct (FuncOpConversion_success_inv srcOp operands st Hrun)
    as (sc & results & _ & _ & Hcreated & _ & _).
  unfold exportOps. rewrite Hcreated.
  repeat apply conj.
  - intros value ->. reflexivity.
  - intros marker -> Hstr.
    destruct marker; try reflexivity. destruct (Hstr _ eq_refl).
  - intros ->. reflexivity.
Qed.

End WithTypeConverter.

Lemma CallOpConversion_result_types_witness :
  let srcOp := mkCallOp "callee" [getI32Type; FloatTy 32] in
  FloatTy 32 ∈ call_resultTypes srcOp
  ∧ convertType exampleTypeConverter (FloatTy 32) = None
  ∧ run (CallOpConversion exampleTypeConverter srcOp
           [mkValue 0 getI32Type None])
    = Some (failure, initial).
Proof.
  cbn zeta.
  assert (Hin : FloatTy 32 ∈ [getI32Type; FloatTy 32])
    by (apply (bool_decide_unpack _); vm_compute; exact I).
  split; [exact Hin |]. split; [reflexivity |].
  exact (proj1 (CallOpConversion_result_types exampleTypeConverter
                  (mkCallOp "callee" [getI32Type; FloatTy 32])
                  [mkValue 0 getI32Type None])
               (FloatTy 32) Hin eq_refl).
Defined.

Lemma FuncOpConversion_attribute_allow_list_witness :
  ∃ st, run (FuncOpConversion exampleTypeConverter
               (exampleFuncOp (Some UnitAttr)) []) = Some (success, st)
  ∧ ∃ inputs results attrs body exports,
      created st = VM_FuncOp "add" inputs results attrs body :: exports
      ∧ attrs !! "sym_visibility"%string = Some (StringAttr "public")
      ∧ attrs !! "noinline"%string = None.
Proof.
  eexists. split; [vm_compute; reflexivity |].
  edestruct (FuncOpConversion_attribute_allow_list exampleTypeConverter
               (exampleFuncOp (Some UnitAttr)) [])
    as (inputs & results & attrs & body & exports
        & Hc & _ & _ & Hvis & Hother);
    [vm_compute; reflexivity |].
  exists inputs, results, attrs, body, exports.
  split; [exact Hc |]. split.
  - rewrite Hvis. vm_compute. reflexivity.
  - apply Hother; discriminate.
Defined.

Lemma FuncOpConversion_export_declaration_witness :
  ∃ st, run (FuncOpConversion exampleTypeConverter
               (exampleFuncOp (Some (StringAttr "sum"))) [])
        = Some (success, st)
  ∧ exportOps st = [VM_ExportOp "add" "sum"].
Proof.
  eexists. split; [vm_compute; reflexivity |].
  refine (proj1 (FuncOpConversion_export_declaration exampleTypeConverter
                   (exampleFuncOp (Some (StringAttr "sum"))) [] _ _)
                "sum"%string _);
    vm_compute; reflexivity.
Defined.

End VMProperties.

(** ** Properties of the LLVMGPU patterns *)

Module GPUProperties.
Import LinalgToLLVMGPU GPUVocabulary.

Lemma filter_flat_map {A B} (Q : B → Prop) `{∀ x, Decision (Q x)}
    (f g : A → list B) (l : list A) :
  Forall (λ x, filter Q (f x) = filter Q (g x)) l →
  filter Q (flat_map f l) = filter Q (flat_map g l).
Proof.
  induction 1 as [| x l Hx _ IH]; cbn; [reflexivity |].
  by rewrite !filter_app, Hx, IH.
Qed.

Lemma elem_of_flat_map {A B} (f : A → list B) (l : list A) (y : B) :
  y ∈ flat_map f l ↔ ∃ x, x ∈ l ∧ y ∈ f x.
Proof.
  rewrite !list_elem_of_In, in_flat_map.
  split; intros (x & Hx & Hy); exists x; by rewrite ?list_elem_of_In in *.
Qed.

(** The walk visits an operation after the operations nested in it;
    binding references have nothing nested in them, so the walk meets
    them in the order a pre-order walk does. *)
Lemma walk_subspans_preorder (o : Operation) :
  leafSubspans (walk o) →
  filter isa_subspan (walk o) = filter isa_subspan (walk_preorder o).
Proof.
  induction o as [name attrs resultTypes regions IH]
    using Operation_nested_ind.
  intros Hleaf. cbn [walk walk_preorder].
  destruct (decide (isa_subspan (Op name attrs resultTypes regions)))
    as [Hsub | Hnot].
  - assert (Hnil : regions = []).
    { apply (Hleaf (Op name attrs resultTypes regions)); [| exact Hsub].
      cbn [walk]. apply elem_of_app. right. by apply list_elem_of_singleton. }
    subst regions. reflexivity.
  - rewrite filter_app, filter_cons_False, filter_nil, app_nil_r by exact Hnot.
    rewrite filter_cons_False by exact Hnot.
    apply filter_flat_map, Forall_forall. intros r Hr.
    apply filter_flat_map, Forall_forall. intros [args ops] Hb.
    cbn [walk_block walk_preorder_block].
    apply filter_flat_map, Forall_forall. intros o' Ho'.
    rewrite Forall_forall in IH. specialize (IH r Hr).
    rewrite Forall_forall in IH. specialize (IH _ Hb). cbn [block_ops] in IH.
    rewrite Forall_forall in IH. apply (IH o' Ho').
    intros x Hx. apply Hleaf. cbn [walk].
    apply elem_of_app. left.
    apply elem_of_flat_map. exists r. split; [exact Hr |].
    apply elem_of_flat_map. exists (Blk args ops). split; [exact Hb |].
    cbn [walk_block]. apply elem_of_flat_map. exists o'. split; done.
Qed.

(** X19: the function pattern meets the binding references, which have
    no regions, in the order of a pre-order walk of the body, although
    its walk visits an operation after the operations nested in it. *)
Lemma walk_InterfaceBindingSubspanOp_preorder (funcOp : FuncOp) :
  leafSubspans (walk_region (func_body funcOp)) →
  walk_InterfaceBindingSubspanOp funcOp = bindingReferences funcOp.
Proof.
  intros Hleaf.
  unfold walk_InterfaceBindingSubspanOp, bindingReferences, walk_region.
  apply (filter_flat_map isa_subspan), Forall_forall. intros [args ops] Hb.
  cbn [walk_block walk_preorder_block].
  apply filter_flat_map, Forall_forall. intros o Ho.
  apply walk_subspans_preorder.
  intros x Hx. apply Hleaf. unfold walk_region.
  apply elem_of_flat_map. exists (Blk args ops). split; [exact Hb |].
  cbn [walk_block]. apply elem_of_flat_map. exists o. split; done.
Qed.

Lemma collectInputTypes_run
    (inputs : list Operation) (llvmInputTypes : list Ty) (s : State LLVMOp) :
  collectInputTypes inputs llvmInputTypes s
  = match mapM llvmInputType inputs with
    | Some tys => Some (llvmInputTypes ++ tys, s)
    | None => None
    end.
Proof.
  revert llvmInputTypes.
  induction inputs as [| input inputs IH]; intros llvmInputTypes; cbn.
  - by rewrite app_nil_r.
  - destruct (llvmInputType input) as [ty |]; cbn; [| reflexivity].
    rewrite IH.
    destruct (mapM llvmInputType inputs) as [tys |]; cbn; [| reflexivity].
    by rewrite <- app_assoc.
Qed.

Lemma llvmInputType_pointer (input : Operation) (ty : Ty) :
  llvmInputType input = Some ty → isPointerTy ty.
Proof.
  unfold llvmInputType.
  destruct (getType input) as [[] |]; intros [= <-]. exact I.
Qed.

Lemma llvmInputTypes_pointers (inputs : list Operation) (tys : list Ty) :
  Forall2 (λ ref ty, llvmInputType ref = Some ty) inputs tys →
  Forall isPointerTy tys.
Proof.
  induction 1 as [| ref ty refs tys' Hty _ IH]; constructor;
    [exact (llvmInputType_pointer ref ty Hty) | exact IH].
Qed.

Section WithTypeConverter.
Context (convertBlockSignature : Block → option Block).

(** What a successful run of the function pattern has done. *)
Lemma ConvertFunc_success_inv
    (funcOp : FuncOp) (operands : list Value) (st : State LLVMOp) :
  run (ConvertFunc convertBlockSignature funcOp operands)
  = Some (success, st) →
  func_isPublic funcOp = true
  ∧ ∃ tys body,
      mapM llvmInputType (walk_InterfaceBindingSubspanOp funcOp) = Some tys
      ∧ convertRegionTypes convertBlockSignature (func_body funcOp)
          (addInputs tys (SignatureConversion_new 0)) = Some body
      ∧ st = mkState
               [LLVM_LLVMFuncOp (func_name funcOp) LLVMVoidTy tys External
                  (filter (λ attr, ¬ (attr.1 = SymbolTable_getSymbolAttrName
                                      ∨ attr.1
                                        = function_like_impl_getTypeAttrName))
                          (func_attrs funcOp))
                  body]
               (Some Erased) [].
Proof.
  unfold ConvertFunc.
  destruct (func_isPublic funcOp); cbn; [| intros [=] ].
  unfold run, Rewriter.bind, assert.
  case_bool_decide; [| intros [=] ].
  rewrite collectInputTypes_run.
  destruct (mapM llvmInputType _) as [tys |]; cbn -[filter];
    [| intros [=] ].
  destruct (convertRegionTypes _ _ _) as [body |] eqn:Hbody; cbn -[filter];
    intros Hst; [| discriminate Hst].
  injection Hst as <-.
  split; [reflexivity |]. exists tys, body. done.
Qed.

Lemma convertRegionTypes_entry
    (body body' : Region) (sc : SignatureConversion) :
  body ≠ [] →
  convertRegionTypes convertBlockSignature body sc = Some body' →
  ∃ entry rest, body' = entry :: rest
                ∧ block_args entry = getConvertedTypes sc.
Proof.
  destruct body as [| [args ops] rest]; [done |]. intros _.
  unfold convertRegionTypes.
  destruct (mapM convertBlockSignature rest) as [rest' |]; intros [= <-].
  eexists _, _. split; reflexivity.
Qed.

(** What the two patterns do, one after the other: a successful
    function pattern creates one function with one pointer parameter for
    each binding reference of the walk, in the order of the walk and
    repetitions counted; and the binding lowering of a statically shaped
    reference, when the binding number [i] of its declaration is below
    the number of parameters, replaces it by a descriptor on parameter
    [i], whatever the position of the reference in the walk. *)
Lemma ConvertFunc_parameter_per_reference
    (symbols : gmap string SymbolOp) (funcOp : FuncOp) (st : State LLVMOp) :
  run (ConvertFunc convertBlockSignature funcOp []) = Some (success, st) →
  ∃ llvmFuncOp,
    created st = [llvmFuncOp]
    ∧ Forall2 (λ ref ty, llvmInputType ref = Some ty)
              (walk_InterfaceBindingSubspanOp funcOp)
              (LLVMFuncOp_params llvmFuncOp)
    ∧ Forall isPointerTy (LLVMFuncOp_params llvmFuncOp)
    ∧ ∀ j ref shape elType memorySpace i,
        walk_InterfaceBindingSubspanOp funcOp !! j = Some ref →
        getType ref = Some (MemRefTy shape elType memorySpace) →
        hasStaticShape shape = true →
        bindingNumber symbols ref = Some i →
        (i < length (walk_InterfaceBindingSubspanOp funcOp))%nat →
        ∃ argType,
          LLVMFuncOp_params llvmFuncOp !! i = Some argType
          ∧ run (ConvertIREEBindingOp symbols (Some llvmFuncOp) ref [])
            = Some (success,
                    descriptorOn (MemRefTy shape elType memorySpace)
                                 i argType).
Proof.
  intros Hrun.
  destruct (ConvertFunc_success_inv funcOp [] st Hrun)
    as (_ & tys & body & Htys & Hbody & ->).
  eexists. split; [reflexivity |].
  apply mapM_Some in Htys. cbn [LLVMFuncOp_params].
  split; [exact Htys |]. split.
  { exact (llvmInputTypes_pointers _ _ Htys). }
  intros j ref shape elType memorySpace i Hj Hty Hstatic Hnum Hi.
  assert (Hlen : length tys = length (walk_InterfaceBindingSubspanOp funcOp))
    by (symmetry; eapply Forall2_length; exact Htys).
  destruct (lookup_lt_is_Some_2 tys i) as [argType HargType]; [lia |].
  exists argType. split; [exact HargType |].
  assert (Hne : func_body funcOp ≠ []).
  { intros Hnil. unfold walk_InterfaceBindingSubspanOp in Hj.
    rewrite Hnil in Hj. discriminate. }
  destruct (convertRegionTypes_entry _ _ _ Hne Hbody)
    as (entry & rest & -> & Hargs).
  unfold bindingNumber, bindingSymbol in Hnum.
  unfold ConvertIREEBindingOp, getNumArguments, getArgument.
  cbn [LLVMFuncOp_params LLVMFuncOp_body].
  destruct (lookupNearestSymbolFrom symbols
              (getAttrOfType_SymbolRefAttr ref "binding"))
    as [[set binding | other] |]; try discriminate.
  injection Hnum as Hnum. rewrite Hnum, Hargs.
  cbn [getConvertedTypes argTypes addInputs SignatureConversion_new app]. rewrite HargType, Hty, Hstatic.
  unfold run, Rewriter.bind, assert.
  rewrite bool_decide_eq_true_2 by lia.
  reflexivity.
Qed.

(** The function pattern does succeed on a public function without
    inputs and results whose binding references all have a memref result
    and whose blocks convert. *)
Lemma ConvertFunc_succeeds (funcOp : FuncOp) (operands : list Value) :
  func_isPublic funcOp = true →
  func_inputs funcOp = [] →
  func_results funcOp = [] →
  Forall (λ ref, is_Some (llvmInputType ref))
         (walk_InterfaceBindingSubspanOp funcOp) →
  Forall (λ b, is_Some (convertBlockSignature b)) (tail (func_body funcOp)) →
  ∃ st, run (ConvertFunc convertBlockSignature funcOp operands)
        = Some (success, st).
Proof.
  intros Hpub Hin Hres Hrefs Hblocks.
  apply mapM_is_Some in Hrefs. destruct Hrefs as [tys Htys].
  unfold ConvertFunc. rewrite Hpub, Hin, Hres. cbn.
  unfold run, Rewriter.bind, assert.
  rewrite bool_decide_eq_true_2 by done.
  rewrite collectInputTypes_run, Htys. cbn -[filter].
  destruct (func_body funcOp) as [| entry rest]; cbn -[filter];
    [eexists; reflexivity |].
  apply mapM_is_Some in Hblocks. destruct Hblocks as [rest' Hrest].
  cbn [tail] in Hrest. rewrite Hrest. cbn -[filter].
  eexists; reflexivity.
Qed.

End WithTypeConverter.

Lemma ConvertFunc_parameter_per_reference_witness :
  ∃ st llvmFuncOp,
    run (ConvertFunc Some kernelSwapped []) = Some (success, st)
    ∧ created st = [llvmFuncOp]
    ∧ LLVMFuncOp_params llvmFuncOp
      = [LLVMPointerTy getI32Type 0; LLVMPointerTy (FloatTy 32) 0]
    ∧ run (ConvertIREEBindingOp exampleSymbols (Some llvmFuncOp)
             (exampleSubspan "io::arg1" getI32Type) [])
      = Some (success,
              descriptorOn (MemRefTy [Some 4] getI32Type 0) 1
                           (LLVMPointerTy (FloatTy 32) 0)).
Proof.
  eexists.
  edestruct (ConvertFunc_parameter_per_reference Some exampleSymbols
               kernelSwapped)
    as (llvmFuncOp & Hcreated & Hparams & _ & Hresolve);
    [vm_compute; reflexivity |].
  exists llvmFuncOp.
  split; [vm_compute; reflexivity |]. split; [exact Hcreated |].
  cbn in Hcreated. injection Hcreated as <-.
  split; [reflexivity |].
  destruct (Hresolve 0%nat (exampleSubspan "io::arg1" getI32Type)
              [Some 4] getI32Type 0 1%nat)
    as (argType & HargType & Hrun);
    [ vm_compute; reflexivity | reflexivity | reflexivity
    | vm_compute; reflexivity | vm_compute; lia | ].
  injection HargType as <-. exact Hrun.
Defined.

(** When the references follow the binding numbers, each is lowered on
    the parameter made for it. *)
Example kernelInOrder_lowering :
  ∃ st llvmFuncOp,
    run (ConvertFunc Some kernelInOrder []) = Some (success, st)
    ∧ created st = [llvmFuncOp]
    ∧ LLVMFuncOp_params llvmFuncOp
      = [LLVMPointerTy (FloatTy 32) 0; LLVMPointerTy getI32Type 0]
    ∧ run (ConvertIREEBindingOp exampleSymbols (Some llvmFuncOp)
             (exampleSubspan "io::arg0" (FloatTy 32)) [])
      = Some (success,
              descriptorOn (MemRefTy [Some 4] (FloatTy 32) 0) 0
                           (LLVMPointerTy (FloatTy 32) 0))
    ∧ run (ConvertIREEBindingOp exampleSymbols (Some llvmFuncOp)
             (exampleSubspan "io::arg1" getI32Type) [])
      = Some (success,
              descriptorOn (MemRefTy [Some 4] getI32Type 0) 1
                           (LLVMPointerTy getI32Type 0)).
Proof.
  do 2 eexists. split; [vm_compute; reflexivity |].
  split; [reflexivity |]. repeat split; vm_compute; reflexivity.
Qed.

(** The property fails as worded: the kernel refers to the binding
    numbered 1 first and to the binding numbered 0 second; the
    first-encountered binding is then lowered on parameter 1, not on the
    first parameter. *)
Lemma flattensDistinctBindings_fails :
  ¬ flattensDistinctBindings Some exampleSymbols kernelSwapped.
Proof.
  intros Hclaim.
  destruct (Hclaim eq_refl eq_refl)
    as (st & llvmFuncOp & Hrun & Hcreated & _ & _ & Hresolve).
  vm_compute in Hrun. injection Hrun as <-.
  cbn in Hcreated. injection Hcreated as <-.
  destruct (Hresolve 0%nat "io::arg1"%string 0%nat
              (exampleSubspan "io::arg1" getI32Type))
    as (memrefType & argType & _ & Hlowered);
    try (vm_compute; reflexivity).
  vm_compute in Hlowered. discriminate Hlowered.
Qed.

(** The count fails as well when one binding is referred to twice: two
    parameters for one distinct binding. *)
Lemma flattensDistinctBindings_fails_repeated :
  ¬ flattensDistinctBindings Some exampleSymbols kernelRepeated.
Proof.
  intros Hclaim.
  destruct (Hclaim eq_refl eq_refl)
    as (st & llvmFuncOp & Hrun & Hcreated & Hlen & _).
  vm_compute in Hrun. injection Hrun as <-.
  cbn in Hcreated. injection Hcreated as <-.
  vm_compute in Hlen. discriminate Hlen.
Qed.

(** C1: on a kernel that refers to the binding numbered 1 before the
    binding numbered 0, the two patterns disagree.  The function pattern
    types the parameters from the references in the order of the walk,
    the binding lowering picks the parameter by binding number: the
    reference to the first-encountered binding, a memref of i32, is
    lowered on parameter 1, which is the pointer to f32 made for the
    other reference, and the reference to the f32 memref on the pointer
    to i32.  So the references are not resolved to the parameters made
    for them, whatever the type converter does to the blocks. *)
Theorem ConvertFunc_binding_lowering_mismatch
    (convertBlockSignature : Block → option Block) :
  ∃ st llvmFuncOp,
    run (ConvertFunc convertBlockSignature kernelSwapped [])
    = Some (success, st)
    ∧ created st = [llvmFuncOp]
    ∧ distinctBindings kernelSwapped = ["io::arg1"; "io::arg0"]%string
    ∧ LLVMFuncOp_params llvmFuncOp
      = [LLVMPointerTy getI32Type 0; LLVMPointerTy (FloatTy 32) 0]
    ∧ run (ConvertIREEBindingOp exampleSymbols (Some llvmFuncOp)
             (exampleSubspan "io::arg1" getI32Type) [])
      = Some (success,
              descriptorOn (MemRefTy [Some 4] getI32Type 0) 1
                           (LLVMPointerTy (FloatTy 32) 0))
    ∧ run (ConvertIREEBindingOp exampleSymbols (Some llvmFuncOp)
             (exampleSubspan "io::arg0" (FloatTy 32)) [])
      = Some (success,
              descriptorOn (MemRefTy [Some 4] (FloatTy 32) 0) 0
                           (LLVMPointerTy getI32Type 0))
    ∧ ¬ flattensDistinctBindings convertBlockSignature exampleSymbols
          kernelSwapped.
Proof.
  do 2 eexists. split; [vm_compute; reflexivity |].
  split; [reflexivity |].
  split; [vm_compute; reflexivity |].
  split; [reflexivity |].
  split; [vm_compute; reflexivity |].
  split; [vm_compute; reflexivity |].
  intros Hclaim.
  destruct (Hclaim eq_refl eq_refl)
    as (st & llvmFuncOp & Hrun & Hcreated & _ & _ & Hresolve).
  vm_compute in Hrun. injection Hrun as <-.
  cbn in Hcreated. injection Hcreated as <-.
  destruct (Hresolve 0%nat "io::arg1"%string 0%nat
              (exampleSubspan "io::arg1" getI32Type))
    as (memrefType & argType & _ & Hlowered);
    try (vm_compute; reflexivity).
  vm_compute in Hlowered. discriminate Hlowered.
Qed.

Lemma HALInterfaceWorkgroupOpsConverter_run
    (XOp YOp ZOp : GPUIntrinsic) (op : InterfaceWorkgroupOp)
    (operands : list Value) :
  run (HALInterfaceWorkgroupOpsConverter XOp YOp ZOp op operands)
  = match static_cast_int32 (getSExtValue (dimension op)) with
    | 0 => Some (success, intrinsicReadExtended XOp)
    | 1 => Some (success, intrinsicReadExtended YOp)
    | 2 => Some (success, intrinsicReadExtended ZOp)
    | _ => Some (failure, initial)
    end.
Proof.
  unfold HALInterfaceWorkgroupOpsConverter.
  destruct (static_cast_int32 (getSExtValue (dimension op)))
    as [| [[] | [] |] |]; reflexivity.
Qed.

Lemma static_cast_int32_in_range (x : Z) :
  - 2 ^ 31 ≤ x < 2 ^ 31 → static_cast_int32 x = x.
Proof.
  intros Hx. unfold static_cast_int32.
  rewrite Z.mod_small by lia. lia.
Qed.

(** The axes 0, 1 and 2 select the X, Y and Z intrinsic of the pattern,
    read as i32 and sign-extended to i64. *)
Lemma HALInterfaceWorkgroupOpsConverter_axes
    (XOp YOp ZOp : GPUIntrinsic) (operands : list Value) :
  run (HALInterfaceWorkgroupOpsConverter XOp YOp ZOp (workgroupQuery 0)
         operands) = Some (success, intrinsicReadExtended XOp)
  ∧ run (HALInterfaceWorkgroupOpsConverter XOp YOp ZOp (workgroupQuery 1)
           operands) = Some (success, intrinsicReadExtended YOp)
  ∧ run (HALInterfaceWorkgroupOpsConverter XOp YOp ZOp (workgroupQuery 2)
           operands) = Some (success, intrinsicReadExtended ZOp).
Proof. repeat split. Qed.

(** An axis that fits an [int32_t] and is not 0, 1 or 2 is a match
    failure. *)
Lemma HALInterfaceWorkgroupOpsConverter_other_axis
    (XOp YOp ZOp : GPUIntrinsic) (axis : Z) (operands : list Value) :
  0 ≤ axis < 2 ^ 31 → axis ≠ 0 → axis ≠ 1 → axis ≠ 2 →
  run (HALInterfaceWorkgroupOpsConverter XOp YOp ZOp (workgroupQuery axis)
         operands) = Some (failure, initial).
Proof.
  intros Hrange H0 H1 H2.
  rewrite HALInterfaceWorkgroupOpsConverter_run.
  unfold workgroupQuery, getSExtValue. cbn [dimension raw bitWidth].
  destruct (Z.ltb_spec axis (2 ^ (64 - 1))) as [_ | Hge]; [| lia].
  rewrite static_cast_int32_in_range by lia.
  destruct axis as [| [[] | [] |] |]; try reflexivity; lia.
Qed.

(** Each kind of workgroup query has one registered pattern, of the
    ROCDL family or of the NVVM family by the backend flag. *)
Lemma populateLLVMConversionPatterns_kinds (useROCM : bool) :
  (populateLLVMConversionPatterns_workgroup useROCM).*1
  = [InterfaceWorkgroupIDOp; InterfaceWorkgroupCountOp;
     InterfaceWorkgroupSizeOp].
Proof. destruct useROCM; reflexivity. Qed.

Lemma static_cast_int32_periodic (k m : Z) :
  static_cast_int32 (k + 2 ^ 32 * m) = static_cast_int32 k.
Proof.
  unfold static_cast_int32.
  replace (k + 2 ^ 32 * m + 2 ^ 31) with (k + 2 ^ 31 + m * 2 ^ 32) by lia.
  by rewrite Z.mod_add.
Qed.

(** C5: the axis is narrowed to 32 bits before the switch, so a query
    on an axis [k + 2^32 * m] with [k] among 0, 1, 2 and [m] positive,
    which is outside 0, 1 and 2, is not a match failure: it is lowered
    as axis [k]. *)
Theorem HALInterfaceWorkgroupOpsConverter_axis_narrowed
    (XOp YOp ZOp : GPUIntrinsic) (k m : Z) (operands : list Value) :
  0 ≤ k ≤ 2 → 0 < m < 2 ^ 30 →
  let axis := k + 2 ^ 32 * m in
  (axis ≠ 0 ∧ axis ≠ 1 ∧ axis ≠ 2)
  ∧ run (HALInterfaceWorkgroupOpsConverter XOp YOp ZOp
           (workgroupQuery axis) operands)
    = Some (success,
            intrinsicReadExtended
              (if k =? 0 then XOp else if k =? 1 then YOp else ZOp)).
Proof.
  intros Hk Hm axis. split; [subst axis; lia |].
  rewrite HALInterfaceWorkgroupOpsConverter_run.
  unfold workgroupQuery, getSExtValue. cbn [dimension raw bitWidth].
  destruct (Z.ltb_spec axis (2 ^ (64 - 1))) as [_ | Hge];
    [| subst axis; lia].
  subst axis. rewrite static_cast_int32_periodic.
  rewrite static_cast_int32_in_range by lia.
  assert (Hcases : k = 0 ∨ k = 1 ∨ k = 2) by lia.
  destruct Hcases as [-> | [-> | ->]]; reflexivity.
Qed.

Lemma HALInterfaceWorkgroupOpsConverter_axis_narrowed_witness :
  4294967296 ≠ 0
  ∧ run (HALInterfaceWorkgroupOpsConverter
           NVVM_BlockIdXOp NVVM_BlockIdYOp NVVM_BlockIdZOp
           (workgroupQuery 4294967296) [])
    = Some (success, intrinsicReadExtended NVVM_BlockIdXOp).
Proof.
  destruct (HALInterfaceWorkgroupOpsConverter_axis_narrowed
              NVVM_BlockIdXOp NVVM_BlockIdYOp NVVM_BlockIdZOp 0 1 [])
    as [[H0 _] Hrun]; [lia | lia |].
  split; [exact H0 | exact Hrun].
Defined.

End GPUProperties.

(** ** Further properties of the StandardToVM patterns *)

Module VMControlProperties.
Import StandardToVM StandardToVMControl VMVocabulary ControlVocabulary.
Import VMProperties.

(** X1: the module terminator is rewritten only inside a VM module: under
    any other parent the pattern declines and rewrites nothing. *)
Theorem ModuleTerminatorOpConversion_inside_vm_module
    (srcOp : ModuleTerminatorOp) (operands : list Value) (parent : string) :
  terminator_parent srcOp = Some parent →
  run (ModuleTerminatorOpConversion srcOp operands)
  = if decide (parent = VM_ModuleOp_getOperationName)
    then Some (success, replacedByNewInstr VM_ModuleTerminatorOp)
    else Some (failure, initial).
Proof.
  intros Hp. unfold ModuleTerminatorOpConversion. rewrite Hp.
  destruct (decide (parent = VM_ModuleOp_getOperationName)) as [Heq | Hne].
  - rewrite (bool_decide_eq_true_2 _ Heq). reflexivity.
  - rewrite (bool_decide_eq_false_2 _ Hne). reflexivity.
Qed.

Lemma ModuleTerminatorOpConversion_inside_vm_module_witness :
  terminator_parent (mkModuleTerminatorOp (Some "module"%string))
  = Some "module"%string
  ∧ run (ModuleTerminatorOpConversion
           (mkModuleTerminatorOp (Some "module"%string)) [])
    = Some (failure, initial).
Proof.
  split; [reflexivity |].
  rewrite (ModuleTerminatorOpConversion_inside_vm_module
             (mkModuleTerminatorOp (Some "module"%string)) []
             "module"%string eq_refl).
  reflexivity.
Defined.

Lemma slice_run (operands : list Value) (n m : nat) (s : State VMInstr) :
  slice operands n m s
  = if decide (n + m ≤ length operands)%nat
    then Some (take m (drop n operands), s) else None.
Proof.
  unfold slice, Rewriter.bind, assert.
  destruct (decide (n + m ≤ length operands)%nat) as [Hle | Hgt].
  - rewrite (bool_decide_eq_true_2 _ Hle). reflexivity.
  - rewrite (bool_decide_eq_false_2 _ Hgt). reflexivity.
Qed.

Lemma CondBranchOpConversion_run
    (srcOp : CondBranchOp) (operands : list Value) :
  run (CondBranchOpConversion srcOp operands)
  = match operands with
    | [] => None
    | condition :: rest =>
        if decide (getNumArguments (cond_trueDest srcOp) ≤ length rest)%nat
        then Some (success,
                   replacedByNewInstr
                     (VM_CondBranchOp condition (cond_trueDest srcOp)
                        (take (getNumArguments (cond_trueDest srcOp)) rest)
                        (cond_falseDest srcOp)
                        (drop (getNumArguments (cond_trueDest srcOp)) rest)))
        else None
    end.
Proof.
  unfold CondBranchOpConversion, run, Rewriter.bind, operandAt, slice_from.
  destruct operands as [| condition rest]; [reflexivity |].
  cbn [lookup list_lookup]. rewrite !slice_run. cbn [length drop].
  set (n := getNumArguments (cond_trueDest srcOp)).
  destruct (decide (n ≤ length rest)%nat) as [Hle | Hgt].
  - rewrite decide_True by lia.
    rewrite slice_run. cbn [length].
    rewrite decide_True by lia.
    cbn [Nat.add drop].
    rewrite (take_ge (drop n rest)) by (rewrite length_drop; lia).
    reflexivity.
  - rewrite decide_False by lia. reflexivity.
Qed.

(** X2: the conditional branch splits its converted operands without losing
    or repeating one: whenever the pattern returns, it has succeeded and
    the condition, the operands of the true destination and those of the
    false destination are, in this order, all the operands, the true
    destination getting as many as it has block arguments. *)
Theorem CondBranchOpConversion_partitions_operands
    (srcOp : CondBranchOp) (operands : list Value)
    (r : LogicalResult) (st : State VMInstr) :
  run (CondBranchOpConversion srcOp operands) = Some (r, st) →
  r = success
  ∧ ∃ condition trueOperands falseOperands,
      operands = condition :: trueOperands ++ falseOperands
      ∧ length trueOperands = getNumArguments (cond_trueDest srcOp)
      ∧ st = replacedByNewInstr
               (VM_CondBranchOp condition (cond_trueDest srcOp) trueOperands
                                (cond_falseDest srcOp) falseOperands).
Proof.
  rewrite CondBranchOpConversion_run.
  destruct operands as [| condition rest]; [intros [=] |].
  destruct (decide _) as [Hle |]; [| intros [=] ].
  intros [= <- <-]. split; [reflexivity |].
  eexists _, _, _. split; [by rewrite take_drop |].
  split; [| reflexivity]. rewrite length_take. lia.
Qed.

Lemma CondBranchOpConversion_partitions_operands_witness :
  let v := λ n, mkValue n getI32Type None in
  let srcOp := mkCondBranchOp (Blk [getI32Type] []) (Blk [] []) in
  ∃ st, run (CondBranchOpConversion srcOp [v 0%nat; v 1%nat; v 2%nat])
        = Some (success, st)
      ∧ ∃ condition trueOperands falseOperands,
          [v 0%nat; v 1%nat; v 2%nat]
          = condition :: trueOperands ++ falseOperands
          ∧ length trueOperands = 1%nat.
Proof.
  cbn zeta. eexists. split; [reflexivity |].
  edestruct (CondBranchOpConversion_partitions_operands
               (mkCondBranchOp (Blk [getI32Type] []) (Blk [] []))
               [mkValue 0 getI32Type None; mkValue 1 getI32Type None;
                mkValue 2 getI32Type None])
    as (_ & c & t & f & Hops & Hlen & _); [reflexivity |].
  exists c, t, f. split; [exact Hops | exact Hlen].
Defined.

(** X3: with no operand for the condition, or fewer operands after it than
    the true destination has block arguments, the operand slices fall
    outside the array: the pattern trips the assertion and neither
    succeeds nor declines; with enough operands it succeeds. *)
Theorem CondBranchOpConversion_needs_operands
    (srcOp : CondBranchOp) (operands : list Value) :
  (length operands < 1 + getNumArguments (cond_trueDest srcOp))%nat ↔
  run (CondBranchOpConversion srcOp operands) = None.
Proof.
  rewrite CondBranchOpConversion_run.
  destruct operands as [| condition rest]; cbn [length].
  - split; [done | lia].
  - destruct (decide _) as [Hle | Hgt]; split; try done; lia.
Qed.

(** The branch and the return lowering never decline: the branch keeps
    its destination block and both forward every converted operand in
    order, none included. *)
Lemma Branch_Return_forward_operands
    (dest : Block) (operands : list Value) :
  run (BranchOpConversion (mkBranchOp dest) operands)
  = Some (success, replacedByNewInstr (VM_BranchOp dest operands))
  ∧ run (ReturnOpConversion mkReturnOp operands)
    = Some (success, replacedByNewInstr (VM_ReturnOp operands)).
Proof. split; reflexivity. Qed.

(** X4: every registered binary arithmetic pattern lowers its operation to
    the VM instruction of the same arithmetic and the same signedness,
    on the same operands in order: signed division and remainder never
    become unsigned ones, nor the reverse. *)
Theorem BinaryArithmeticOpConversion_table_fidelity
    (kind : StdBinaryKind) (pattern : BinaryOp → list Value → Pattern)
    (srcOp : BinaryOp) (lhs rhs : Value) :
  (kind, pattern) ∈ populateStandardToVMPatterns_binary →
  ∃ o, run (pattern srcOp [lhs; rhs]) = Some (success, replacedByNewInstr o)
       ∧ vm_arithmetic o = Some (source_arithmetic kind)
       ∧ vm_binary_operands o = Some (binary_type srcOp, lhs, rhs).
Proof.
  unfold populateStandardToVMPatterns_binary.
  rewrite !elem_of_cons, elem_of_nil.
  intros Hin.
  repeat (destruct Hin as [[= -> ->] | Hin];
          [eexists; split; [reflexivity |]; split; reflexivity |]).
  destruct Hin.
Qed.

Lemma BinaryArithmeticOpConversion_table_fidelity_witness :
  let lhs := mkValue 0 getI32Type None in
  let rhs := mkValue 1 getI32Type None in
  ∃ pattern o,
    populateStandardToVMPatterns_binary !! 5%nat
    = Some (UnsignedRemIOp, pattern)
    ∧ run (pattern (mkBinaryOp getI32Type) [lhs; rhs])
      = Some (success, replacedByNewInstr o)
    ∧ vm_arithmetic o = Some (ArithRem, UnsignedMode).
Proof.
  cbn zeta. eexists.
  edestruct (BinaryArithmeticOpConversion_table_fidelity UnsignedRemIOp
               (BinaryArithmeticOpConversion VM_RemI32UOp)
               (mkBinaryOp getI32Type)
               (mkValue 0 getI32Type None) (mkValue 1 getI32Type None))
    as (o & Hrun & Harith & _).
  { unfold populateStandardToVMPatterns_binary.
    do 5 apply list_elem_of_further. apply list_elem_of_here. }
  exists o. split; [reflexivity |]. split; [exact Hrun | exact Harith].
Defined.

(** X5: the binary arithmetic patterns check neither the width nor the kind
    of the type: whatever the result type of the operation, they succeed
    and give the 32-bit VM instruction that same result type. *)
Theorem BinaryArithmeticOpConversion_any_type
    (kind : StdBinaryKind) (pattern : BinaryOp → list Value → Pattern)
    (type : Ty) (lhs rhs : Value) :
  (kind, pattern) ∈ populateStandardToVMPatterns_binary →
  ∃ o, run (pattern (mkBinaryOp type) [lhs; rhs])
       = Some (success, replacedByNewInstr o)
       ∧ fst <$> (fst <$> vm_binary_operands o) = Some type.
Proof.
  unfold populateStandardToVMPatterns_binary.
  rewrite !elem_of_cons, elem_of_nil.
  intros Hin.
  repeat (destruct Hin as [[= -> ->] | Hin];
          [eexists; split; reflexivity |]).
  destruct Hin.
Qed.

Lemma BinaryArithmeticOpConversion_any_type_witness :
  ∃ o, run (BinaryArithmeticOpConversion VM_AddI32Op
              (mkBinaryOp (getIntegerType 64))
              [mkValue 0 (getIntegerType 64) None;
               mkValue 1 (getIntegerType 64) None])
       = Some (success, replacedByNewInstr o)
       ∧ fst <$> (fst <$> vm_binary_operands o) = Some (getIntegerType 64).
Proof.
  apply (BinaryArithmeticOpConversion_any_type AddIOp).
  unfold populateStandardToVMPatterns_binary. apply list_elem_of_here.
Defined.

(** X6: the four predicates beside the relational six are lowered with the
    same fidelity, and the result type of the VM comparison is i32
    whatever the operands are. *)
Theorem CmpIOpConversion_greater_predicates
    (p : CmpIPredicate) (lhs rhs : Value) :
  p ∈ greaterPredicates →
  ∃ o, run (CmpIOpConversion (mkCmpIOp p) [lhs; rhs])
       = Some (success, replacedByNewOp o)
     ∧ vm_direction o = Some (predicate_direction p)
     ∧ vm_signMode o = Some (predicate_signMode p)
     ∧ (vm_direction o = Some DirGT ∨ vm_direction o = Some DirGTE)
     ∧ vm_cmp_operands o = Some (getI32Type, lhs, rhs).
Proof.
  unfold greaterPredicates. rewrite !elem_of_cons, elem_of_nil.
  intros [-> | [-> | [-> | [-> | []]]]];
    eexists; (split; [cbv; reflexivity |]); repeat split; auto.
Qed.

Lemma CmpIOpConversion_greater_predicates_witness :
  uge ∈ greaterPredicates
  ∧ ∃ o, run (CmpIOpConversion (mkCmpIOp uge)
                [mkValue 0 getI32Type None; mkValue 1 getI32Type None])
         = Some (success, replacedByNewOp o)
       ∧ vm_direction o = Some DirGTE
       ∧ vm_signMode o = Some UnsignedMode.
Proof.
  assert (Hin : uge ∈ greaterPredicates)
    by (apply (bool_decide_unpack _); vm_compute; exact I).
  split; [exact Hin |].
  destruct (CmpIOpConversion_greater_predicates uge
              (mkValue 0 getI32Type None) (mkValue 1 getI32Type None) Hin)
    as (o & H1 & H2 & H3 & _).
  exists o. auto.
Defined.

(** X7: whenever the constant lowering returns, it says why it declined:
    exactly one remark, for the attribute kind when the value is not an
    integer attribute and for the width when it is one of another width;
    a successful lowering emits no remark, and the operands play no
    part. *)
Theorem ConstantOpConversion_remarks
    (srcOp : ConstantOp) (operands : list Value)
    (r : LogicalResult) (st : State VMOp) :
  run (ConstantOpConversion srcOp operands) = Some (r, st) →
  run (ConstantOpConversion srcOp []) = Some (r, st)
  ∧ (r = success → remarks st = [])
  ∧ (r = failure →
       created st = []
       ∧ (∀ ty bits, const_value srcOp = IntegerAttr ty bits →
            remarks st
            = ["unsupported bit width for dialect constant"%string])
       ∧ ((∀ ty bits, const_value srcOp ≠ IntegerAttr ty bits) →
            remarks st = ["unsupported const type for dialect"%string])).
Proof.
  destruct (const_value srcOp) as [| s | ty bits | ty r' | ty | s | es] eqn:Hv.
  3: {
    destruct (getIntOrFloatBitWidth ty) as [numBits |] eqn:Hw.
    - rewrite !(ConstantOpConversion_run_integer srcOp _ ty bits numBits
                  Hv Hw).
      destruct ((numBits =? 1) || (numBits =? 32)); intros [= <- <-].
      + repeat apply conj; done.
      + repeat apply conj; try done.
        intros _. repeat apply conj; try done.
        intros Hne. destruct (Hne ty bits eq_refl).
    - rewrite (ConstantOpConversion_run_no_width srcOp _ ty bits Hv Hw).
      intros [=].
  }
  all: rewrite !ConstantOpConversion_run_other by (rewrite Hv; done);
    intros [= <- <-]; repeat apply conj; done.
Qed.

Lemma ConstantOpConversion_remarks_witness :
  ∃ st, run (ConstantOpConversion
               (mkConstantOp (IntegerAttr (getIntegerType 64) 7)) [])
        = Some (failure, st)
      ∧ remarks st = ["unsupported bit width for dialect constant"%string].
Proof.
  eexists. split; [vm_compute; reflexivity |].
  destruct (ConstantOpConversion_remarks
              (mkConstantOp (IntegerAttr (getIntegerType 64) 7)) []
              failure
              (mkState [] None
                 ["unsupported bit width for dialect constant"%string]))
    as (_ & _ & Hfail); [vm_compute; reflexivity |].
  exact (proj1 (proj2 (Hfail eq_refl)) (getIntegerType 64) 7 eq_refl).
Defined.

Section WithTypeConverter.
Context (convertTypeN : Ty → option (list Ty)).

Lemma convertTypes_concat (types results results' : list Ty) :
  convertTypes convertTypeN types results = Some results' ↔
  ∃ converted,
    Forall2 (λ t ts, convertTypeN t = Some ts) types converted
    ∧ results' = results ++ concat converted.
Proof.
  revert results.
  induction types as [| t types IH]; intros results; cbn.
  - split.
    + intros [= <-]. exists []. split; [constructor |].
      by rewrite app_nil_r.
    + intros (converted & Hall & ->). inversion Hall; subst.
      by rewrite app_nil_r.
  - destruct (convertTypeN t) as [ts |] eqn:Ht.
    + rewrite IH. split.
      * intros (converted & Hall & ->). exists (ts :: converted).
        split; [by constructor |]. cbn. by rewrite app_assoc.
      * intros (converted & Hall & ->).
        inversion Hall as [| ? ts' ? converted' Ht' Hall']; subst.
        rewrite Ht in Ht'. injection Ht' as <-.
        exists converted'. split; [done |]. cbn. by rewrite app_assoc.
    + split; [intros [=] |].
      intros (converted & Hall & _).
      inversion Hall as [| ? ts' ? converted' Ht' Hall']; subst. congruence.
Qed.

Lemma convertTypes_None (types results : list Ty) :
  convertTypes convertTypeN types results = None ↔
  ∃ t, t ∈ types ∧ convertTypeN t = None.
Proof.
  revert results.
  induction types as [| t types IH]; intros results; cbn.
  - split; [intros [=] |]. intros (t & Hin & _). by apply elem_of_nil in Hin.
  - destruct (convertTypeN t) as [ts |] eqn:Ht.
    + rewrite IH. split.
      * intros (t' & Hin & Hnone). exists t'. split; [by right | done].
      * intros (t' & Hin & Hnone). apply elem_of_cons in Hin as [-> | Hin];
          [congruence |]. eauto.
    + split; [| done]. intros _. exists t. split; [by left | done].
Qed.

(** The accumulator after the loop over the inputs: the converted
    types of the inputs, in order, after the types it held. *)
Lemma convertArguments_concat
    (inputs : list Ty) (i : nat) (sc sc' : SignatureConversion) :
  convertArguments convertTypeN i inputs sc = Some sc' →
  ∃ converted,
    Forall2 (λ t ts, convertTypeN t = Some ts) inputs converted
    ∧ argTypes sc' = argTypes sc ++ concat converted.
Proof.
  revert i sc.
  induction inputs as [| t inputs IH]; intros i sc; cbn.
  - intros [= <-]. exists []. split; [constructor |].
    by rewrite app_nil_r.
  - unfold convertSignatureArg.
    destruct (convertTypeN t) as [ts |] eqn:Ht; [| intros [=] ].
    destruct ts as [| t1 ts].
    + intros Hrest. destruct (IH _ _ Hrest) as (converted & Hall & Hty).
      exists ([] :: converted). split; [by constructor | done].
    + intros Hrest. destruct (IH _ _ Hrest) as (converted & Hall & Hty).
      exists ((t1 :: ts) :: converted).
      split; [by constructor |].
      rewrite Hty. cbn [addInputs_at argTypes concat].
      by rewrite <- app_assoc.
Qed.

(** The loop keeps, for the inputs it has passed, what it recorded:
    later inputs touch neither the earlier entries of the remapping nor
    the types already appended. *)
Lemma convertArguments_frame
    (inputs : list Ty) (i : nat) (sc sc' : SignatureConversion) :
  convertArguments convertTypeN i inputs sc = Some sc' →
  length (remappedInputs sc') = length (remappedInputs sc)
  ∧ (∀ j, (j < i)%nat → remappedInputs sc' !! j = remappedInputs sc !! j)
  ∧ ∃ more, argTypes sc' = argTypes sc ++ more.
Proof.
  revert i sc.
  induction inputs as [| t inputs IH]; intros i sc; cbn.
  - intros [= <-]. repeat split. exists []. by rewrite app_nil_r.
  - unfold convertSignatureArg.
    destruct (convertTypeN t) as [[| t1 ts] |] eqn:Ht; [| | intros [=] ].
    + intros Hrest. destruct (IH _ _ Hrest) as (Hlen & Hframe & more & Hty).
      split; [done |]. split; [| by exists more].
      intros j Hj. apply Hframe. lia.
    + intros Hrest. destruct (IH _ _ Hrest) as (Hlen & Hframe & more & Hty).
      cbn [addInputs_at remappedInputs argTypes] in *.
      rewrite length_insert in Hlen.
      split; [done |]. split.
      * intros j Hj. rewrite Hframe by lia.
        apply list_lookup_insert_ne. lia.
      * exists ((t1 :: ts) ++ more). rewrite Hty. by rewrite <- app_assoc.
Qed.

Lemma convertArguments_None
    (inputs : list Ty) (i : nat) (sc : SignatureConversion) :
  convertArguments convertTypeN i inputs sc = None ↔
  ∃ t, t ∈ inputs ∧ convertTypeN t = None.
Proof.
  revert i sc.
  induction inputs as [| t inputs IH]; intros i sc; cbn.
  - split; [intros [=] |]. intros (t & Hin & _). by apply elem_of_nil in Hin.
  - unfold convertSignatureArg.
    destruct (convertTypeN t) as [[| t1 ts] |] eqn:Ht.
    + rewrite IH. split.
      * intros (t' & Hin & Hnone). exists t'. split; [by right | done].
      * intros (t' & Hin & Hnone). apply elem_of_cons in Hin as [-> | Hin];
          [congruence |]. eauto.
    + rewrite IH. split.
      * intros (t' & Hin & Hnone). exists t'. split; [by right | done].
      * intros (t' & Hin & Hnone). apply elem_of_cons in Hin as [-> | Hin];
          [congruence |]. eauto.
    + split; [| done]. intros _. exists t. split; [by left | done].
Qed.

Lemma convertArguments_remap
    (inputs : list Ty) (i : nat) (sc sc' : SignatureConversion) :
  convertArguments convertTypeN i inputs sc = Some sc' →
  (i + length inputs ≤ length (remappedInputs sc))%nat →
  ∀ k t, inputs !! k = Some t →
    ∃ ts, convertTypeN t = Some ts
      ∧ if decide (ts = [])
        then remappedInputs sc' !! (i + k)%nat
             = remappedInputs sc !! (i + k)%nat
        else ∃ start,
             remappedInputs sc' !! (i + k)%nat
             = Some (Some (start, length ts))
             ∧ take (length ts) (drop start (argTypes sc')) = ts.
Proof.
  revert i sc.
  induction inputs as [| t0 inputs IH]; intros i sc; cbn [convertArguments].
  - intros _ _ k t Hk. destruct k; discriminate Hk.
  - unfold convertSignatureArg. cbn [length].
    destruct (convertTypeN t0) as [ts0 |] eqn:Ht0; [| intros [=] ].
    intros Hrest Hlen [| k] t Hk.
    + injection Hk as <-. exists ts0. split; [done |].
      rewrite Nat.add_0_r.
      destruct ts0 as [| t1 ts0]; cbn [decide].
      * rewrite decide_True by done.
        destruct (convertArguments_frame _ _ _ _ Hrest) as (_ & Hframe & _).
        apply Hframe. lia.
      * rewrite decide_False by done.
        destruct (convertArguments_frame _ _ _ _ Hrest)
          as (_ & Hframe & more & Hty).
        exists (length (argTypes sc)). split.
        -- rewrite Hframe by lia. cbn [addInputs_at remappedInputs].
           apply list_lookup_insert_eq. lia.
        -- rewrite Hty. cbn [addInputs_at argTypes].
           rewrite <- app_assoc, drop_app_length.
           apply take_app_length.
    + cbn [lookup list_lookup] in Hk.
      assert (Hlen' : (S i + length inputs
                       ≤ length (remappedInputs
                                   (match ts0 with
                                    | [] => sc
                                    | _ :: _ => addInputs_at i ts0 sc
                                    end)))%nat).
      { destruct ts0; cbn [addInputs_at remappedInputs];
          rewrite ?length_insert; lia. }
      assert (Hrest' : convertArguments convertTypeN (S i) inputs
                         (match ts0 with
                          | [] => sc
                          | _ :: _ => addInputs_at i ts0 sc
                          end) = Some sc')
        by (destruct ts0; exact Hrest).
      destruct (IH _ _ Hrest' Hlen' k t Hk) as (ts & Hts & Hcase).
      exists ts. split; [done |].
      replace (i + S k)%nat with (S i + k)%nat by lia.
      destruct (decide (ts = [])) as [Hnil | Hne]; [| exact Hcase].
      rewrite Hcase. destruct ts0; [reflexivity |].
      cbn [addInputs_at remappedInputs].
      apply list_lookup_insert_ne. lia.
Qed.

(** X8: the loop over the function inputs leaves, for every input, a
    remapping entry that names the slots holding its converted types: an
    input converting to no type has no slot, any other input has the
    slice of the converted signature that is exactly its converted
    types. *)
Theorem convertArguments_remaps_each_input
    (inputs : list Ty) (sc : SignatureConversion) (k : nat) (t : Ty) :
  convertArguments convertTypeN 0 inputs
    (SignatureConversion_new (length inputs)) = Some sc →
  inputs !! k = Some t →
  ∃ ts, convertTypeN t = Some ts
    ∧ match remappedInputs sc !! k with
      | Some (Some (start, size)) =>
          ts ≠ [] ∧ size = length ts
          ∧ take size (drop start (getConvertedTypes sc)) = ts
      | Some None => ts = []
      | None => False
      end.
Proof.
  intros Hsc Hk.
  assert (Hlen : (0 + length inputs
                  ≤ length (remappedInputs
                              (SignatureConversion_new (length inputs))))%nat).
  { cbn. by rewrite length_replicate. }
  destruct (convertArguments_remap _ _ _ _ Hsc Hlen k t Hk)
    as (ts & Hts & Hcase).
  exists ts. split; [done |]. cbn [Nat.add] in Hcase.
  destruct (decide (ts = [])) as [-> | Hne].
  - rewrite Hcase. cbn [SignatureConversion_new remappedInputs].
    rewrite lookup_replicate_2; [done |].
    by apply lookup_lt_Some in Hk.
  - destruct Hcase as (start & -> & Hslice). done.
Qed.

(** X9: a successful function conversion gives the VM function the name
    of the source function and, as input and result types, the converted
    types of the source inputs and results, each expanded in place and in
    order; an input or result that converts to no type disappears from
    the signature, one that converts to several takes several places. *)
Theorem FuncOpConversion_signature
    (srcOp : FuncOp) (operands : list Value) (st : State VMOp) :
  run (FuncOpConversion convertTypeN srcOp operands) = Some (success, st) →
  ∃ convertedInputs convertedResults attrs body exports,
    Forall2 (λ t ts, convertTypeN t = Some ts)
            (func_inputs srcOp) convertedInputs
    ∧ Forall2 (λ t ts, convertTypeN t = Some ts)
              (func_results srcOp) convertedResults
    ∧ created st
      = VM_FuncOp (func_name srcOp)
          (concat convertedInputs) (concat convertedResults) attrs body
        :: exports.
Proof.
  intros Hrun.
  destruct (FuncOpConversion_success_inv convertTypeN srcOp operands st Hrun)
    as (sc & results & Hsc & Hres & Hcreated & _ & _).
  apply convertArguments_concat in Hsc
    as (convertedInputs & HallIn & HtyIn).
  apply convertTypes_concat in Hres as (convertedResults & HallRes & ->).
  exists convertedInputs, convertedResults. do 3 eexists.
  split; [exact HallIn |]. split; [exact HallRes |].
  rewrite Hcreated. unfold getConvertedTypes. rewrite HtyIn. reflexivity.
Qed.

(** X10: the function conversion declines exactly when an input type or a
    result type of the function has no conversion, and then has
    rewritten nothing. *)
Theorem FuncOpConversion_declines_unconvertible
    (srcOp : FuncOp) (operands : list Value) :
  (∃ t, (t ∈ func_inputs srcOp ∨ t ∈ func_results srcOp)
        ∧ convertTypeN t = None) ↔
  run (FuncOpConversion convertTypeN srcOp operands)
  = Some (failure, initial).
Proof.
  unfold FuncOpConversion.
  destruct (convertArguments _ _ _ _) as [sc |] eqn:Hsc.
  - destruct (convertTypes _ _ _) as [results |] eqn:Hres.
    + split.
      * intros (t & [Hin | Hin] & Hnone).
        -- assert (Hn : convertArguments convertTypeN 0 (func_inputs srcOp)
                          (SignatureConversion_new
                             (length (func_inputs srcOp))) = None)
             by (apply convertArguments_None; eauto).
           congruence.
        -- assert (Hn : convertTypes convertTypeN (func_results srcOp) []
                        = None)
             by (apply convertTypes_None; eauto).
           congruence.
      * unfold kRetainedAttributes. cbn [retainAttributes].
        retained_cases (func_attrs srcOp);
          destruct (func_attrs srcOp !! "iree.module.export"%string)
            as [[] |]; intros [=].
    + split; [done |]. intros _.
      apply convertTypes_None in Hres as (t & Hin & Hnone). eauto.
  - split; [done |]. intros _.
    apply convertArguments_None in Hsc as (t & Hin & Hnone). eauto.
Qed.

End WithTypeConverter.

Lemma convertArguments_remaps_each_input_witness :
  ∃ sc,
    convertArguments exampleTypeConverter 0 [getI32Type; getIntegerType 1]
      (SignatureConversion_new 2) = Some sc
    ∧ remappedInputs sc !! 1%nat = Some (Some (1%nat, 1%nat))
    ∧ take 1 (drop 1 (getConvertedTypes sc)) = [getI32Type].
Proof.
  eexists. split; [vm_compute; reflexivity |].
  destruct (convertArguments_remaps_each_input exampleTypeConverter
              [getI32Type; getIntegerType 1]
              (mkSignatureConversion [Some (0, 1); Some (1, 1)]%nat
                                     [getI32Type; getI32Type])
              1%nat (getIntegerType 1))
    as (ts & Hts & Hremap); [vm_compute; reflexivity | reflexivity |].
  vm_compute in Hts. injection Hts as <-.
  cbn in Hremap. destruct Hremap as (_ & _ & Hslice).
  split; [reflexivity | exact Hslice].
Defined.

Lemma FuncOpConversion_signature_witness :
  ∃ st attrs body exports,
    run (FuncOpConversion exampleTypeConverter
           (exampleFuncOp None) []) = Some (success, st)
    ∧ created st
      = VM_FuncOp "add" [getI32Type; getI32Type] [getI32Type] attrs body
        :: exports.
Proof.
  eexists.
  edestruct (FuncOpConversion_signature exampleTypeConverter
               (exampleFuncOp None) [])
    as (ins & outs & attrs & body & exports & Hin & Hout & Hcreated);
    [vm_compute; reflexivity |].
  exists attrs, body, exports. split; [vm_compute; reflexivity |].
  rewrite Hcreated.
  assert (Hins : ins = [[getI32Type]; [getI32Type]]).
  { inversion Hin as [| ? a ? l Ha Hl]; subst.
    inversion Hl as [| ? b ? l' Hb Hl']; subst.
    inversion Hl'; subst.
    vm_compute in Ha, Hb. by injection Ha as <-; injection Hb as <-. }
  assert (Houts : outs = [[getI32Type]]).
  { inversion Hout as [| ? a ? l Ha Hl]; subst. inversion Hl; subst.
    vm_compute in Ha. by injection Ha as <-. }
  subst ins outs. reflexivity.
Defined.

Lemma FuncOpConversion_declines_unconvertible_witness :
  let srcOp := mkFuncOp "f" [FloatTy 32] [] ∅ [] in
  (FloatTy 32 ∈ func_inputs srcOp
   ∧ exampleTypeConverter (FloatTy 32) = None)
  ∧ run (FuncOpConversion exampleTypeConverter srcOp [])
    = Some (failure, initial).
Proof.
  cbn zeta.
  assert (Hin : FloatTy 32 ∈ [FloatTy 32]) by apply list_elem_of_here.
  split; [split; [exact Hin | reflexivity] |].
  apply (FuncOpConversion_declines_unconvertible exampleTypeConverter
           (mkFuncOp "f" [FloatTy 32] [] ∅ []) []).
  exists (FloatTy 32). split; [left; exact Hin | reflexivity].
Defined.

End VMControlProperties.

(** ** Further properties of the LLVMGPU patterns *)

Module GPUFurtherProperties.
Import LinalgToLLVMGPU GPUVocabulary GPUTableVocabulary GPUProperties.

Section WithTypeConverter.
Context (convertBlockSignature : Block → option Block).

(** X11: the function pattern copies every attribute of the function except
    the symbol name and the function type, keeps the name, and makes the
    function external with a void result. *)
Theorem ConvertFunc_keeps_attributes
    (funcOp : FuncOp) (operands : list Value) (st : State LLVMOp) :
  run (ConvertFunc convertBlockSignature funcOp operands)
  = Some (success, st) →
  ∃ params attrs body,
    created st
    = [LLVM_LLVMFuncOp (func_name funcOp) LLVMVoidTy params External
         attrs body]
    ∧ (∀ name, name ∉ skippedAttributes →
         attrs !! name = func_attrs funcOp !! name)
    ∧ (∀ name, name ∈ skippedAttributes → attrs !! name = None).
Proof.
  intros Hrun.
  destruct (ConvertFunc_success_inv _ funcOp operands st Hrun)
    as (_ & tys & body & _ & _ & ->).
  eexists _, _, _. split; [reflexivity |].
  unfold skippedAttributes. split.
  - intros name Hname. rewrite !elem_of_cons, elem_of_nil in Hname.
    rewrite map_lookup_filter.
    destruct (func_attrs funcOp !! name) as [attr |]; [| reflexivity].
    cbn. rewrite option_guard_True; [reflexivity |]. cbn. tauto.
  - intros name Hname. rewrite !elem_of_cons, elem_of_nil in Hname.
    apply map_lookup_filter_None. right. intros attr _. cbn. tauto.
Qed.

(** X12: after a successful function pattern the entry block of the new
    function holds the operations of the old entry block, so the binding
    references in it are still there to be lowered, and has exactly the
    parameters of the function as block arguments; a function without a
    body stays without one. *)
Theorem ConvertFunc_entry_block
    (funcOp : FuncOp) (operands : list Value) (st : State LLVMOp) :
  run (ConvertFunc convertBlockSignature funcOp operands)
  = Some (success, st) →
  ∃ llvmFuncOp,
    created st = [llvmFuncOp]
    ∧ match func_body funcOp with
      | [] => LLVMFuncOp_body llvmFuncOp = []
      | entry :: rest =>
          ∃ rest',
            mapM convertBlockSignature rest = Some rest'
            ∧ LLVMFuncOp_body llvmFuncOp
              = Blk (LLVMFuncOp_params llvmFuncOp) (block_ops entry)
                :: rest'
      end.
Proof.
  intros Hrun.
  destruct (ConvertFunc_success_inv _ funcOp operands st Hrun)
    as (_ & tys & body & _ & Hbody & ->).
  eexists. split; [reflexivity |].
  cbn [LLVMFuncOp_body LLVMFuncOp_params].
  unfold convertRegionTypes in Hbody.
  destruct (func_body funcOp) as [| [args ops] rest].
  - by injection Hbody as <-.
  - destruct (mapM convertBlockSignature rest) as [rest' |];
      [| discriminate Hbody].
    injection Hbody as <-. exists rest'. split; reflexivity.
Qed.

(** X13: the function pattern declines in two ways only.  On a function that
    is not public it has done nothing.  On a public function whose region
    does not convert it has already created the new function and moved
    the body into it, and has not erased the old function: undoing that
    is left to the caller. *)
Theorem ConvertFunc_failure_cases
    (funcOp : FuncOp) (operands : list Value) (st : State LLVMOp) :
  run (ConvertFunc convertBlockSignature funcOp operands)
  = Some (failure, st) →
  (func_isPublic funcOp = false ∧ st = initial)
  ∨ (func_isPublic funcOp = true
     ∧ ∃ llvmFuncOp,
         created st = [llvmFuncOp]
         ∧ LLVMFuncOp_body llvmFuncOp = func_body funcOp
         ∧ replaced st = None
         ∧ Exists (λ b, convertBlockSignature b = None)
                  (tail (func_body funcOp))).
Proof.
  unfold ConvertFunc.
  destruct (func_isPublic funcOp); cbn; [| intros [= <-]; by left ].
  unfold run, Rewriter.bind, assert.
  case_bool_decide; [| intros [=] ].
  rewrite collectInputTypes_run.
  destruct (mapM llvmInputType _) as [tys |]; cbn -[filter];
    [| intros [=] ].
  destruct (convertRegionTypes _ _ _) as [body |] eqn:Hbody; cbn -[filter];
    intros Hst; [discriminate Hst |].
  injection Hst as <-. right. split; [reflexivity |].
  eexists. split; [reflexivity |]. split; [reflexivity |].
  split; [reflexivity |].
  unfold convertRegionTypes in Hbody.
  destruct (func_body funcOp) as [| entry rest]; [discriminate Hbody |].
  cbn [tail].
  destruct (mapM convertBlockSignature rest) eqn:Hrest;
    [discriminate Hbody |].
  by apply mapM_None.
Qed.

(** X14: a public function with parameters or results is outside what the
    function pattern accepts: its assertion is violated and the pattern
    neither succeeds nor declines. *)
Theorem ConvertFunc_asserts_empty_signature
    (funcOp : FuncOp) (operands : list Value) :
  func_isPublic funcOp = true →
  func_inputs funcOp ≠ [] ∨ func_results funcOp ≠ [] →
  run (ConvertFunc convertBlockSignature funcOp operands) = None.
Proof.
  intros Hpub Hsig. unfold ConvertFunc. rewrite Hpub. cbn.
  unfold run, Rewriter.bind, assert.
  rewrite bool_decide_eq_false_2; [reflexivity |].
  intros [Hin Hres].
  destruct Hsig as [Hne | Hne]; apply Hne;
    by apply length_zero_iff_nil.
Qed.

End WithTypeConverter.

Lemma ConvertFunc_keeps_attributes_witness :
  ∃ st params attrs body,
    run (ConvertFunc Some kernelInOrder []) = Some (success, st)
    ∧ created st
      = [LLVM_LLVMFuncOp "kernel" LLVMVoidTy params External attrs body]
    ∧ attrs !! "sym_name"%string = None.
Proof.
  eexists.
  edestruct (ConvertFunc_keeps_attributes Some kernelInOrder [])
    as (params & attrs & body & Hcreated & _ & Hskipped);
    [vm_compute; reflexivity |].
  exists params, attrs, body.
  split; [vm_compute; reflexivity |]. split; [exact Hcreated |].
  apply Hskipped. unfold skippedAttributes. apply list_elem_of_here.
Defined.

Lemma ConvertFunc_entry_block_witness :
  ∃ st llvmFuncOp rest',
    run (ConvertFunc Some kernelInOrder []) = Some (success, st)
    ∧ created st = [llvmFuncOp]
    ∧ LLVMFuncOp_body llvmFuncOp
      = Blk (LLVMFuncOp_params llvmFuncOp)
            [exampleSubspan "io::arg0" (FloatTy 32);
             exampleSubspan "io::arg1" getI32Type;
             Op "std.return" ∅ [] []]
        :: rest'.
Proof.
  eexists.
  edestruct (ConvertFunc_entry_block Some kernelInOrder [])
    as (llvmFuncOp & Hcreated & Hbody); [vm_compute; reflexivity |].
  cbn [kernelInOrder exampleKernel func_body] in Hbody.
  destruct Hbody as (rest' & _ & Hbody).
  exists llvmFuncOp, rest'.
  split; [vm_compute; reflexivity |]. split; [exact Hcreated |].
  exact Hbody.
Defined.

Lemma ConvertFunc_failure_cases_witness :
  run (ConvertFunc Some examplePrivateKernel []) = Some (failure, initial)
  ∧ func_isPublic examplePrivateKernel = false.
Proof.
  split; [vm_compute; reflexivity |].
  destruct (ConvertFunc_failure_cases Some examplePrivateKernel [] initial)
    as [[Hpriv _] | [Hpub _]];
    [vm_compute; reflexivity | exact Hpriv | discriminate Hpub].
Defined.

Lemma ConvertFunc_asserts_empty_signature_witness :
  let funcOp := mkFuncOp "entry" [getI32Type] [] true ∅ [] in
  func_isPublic funcOp = true
  ∧ func_inputs funcOp ≠ []
  ∧ run (ConvertFunc Some funcOp []) = None.
Proof.
  cbn zeta. split; [reflexivity |]. split; [discriminate |].
  apply ConvertFunc_asserts_empty_signature; [reflexivity |].
  left. discriminate.
Defined.

(** X15: nested in an LLVM function that has a parameter, a statically
    shaped reference whose symbol resolves to a binding declaration, with
    a binding number inside the arguments of the entry block, is replaced
    by one memref descriptor built on the entry block argument at that
    binding number; the set number of the declaration, the position of
    the reference and the operands play no part. *)
Theorem ConvertIREEBindingOp_descriptor_on_binding_number
    (symbols : gmap string SymbolOp) (llvmFuncOp : LLVMOp)
    (op : Operation) (operands : list Value)
    (symbol : string) (set binding : APInt)
    (shape : list (option Z)) (elType : Ty) (memorySpace : Z)
    (entry : Block) (rest : list Block) (argType : Ty) :
  LLVMFuncOp_params llvmFuncOp ≠ [] →
  LLVMFuncOp_body llvmFuncOp = entry :: rest →
  getAttrOfType_SymbolRefAttr op "binding" = Some symbol →
  symbols !! symbol = Some (InterfaceBindingOp set binding) →
  block_args entry !! Z.to_nat (static_cast_unsigned (getZExtValue binding))
  = Some argType →
  getType op = Some (MemRefTy shape elType memorySpace) →
  hasStaticShape shape = true →
  run (ConvertIREEBindingOp symbols (Some llvmFuncOp) op operands)
  = Some (success,
          descriptorOn (MemRefTy shape elType memorySpace)
            (Z.to_nat (static_cast_unsigned (getZExtValue binding)))
            argType).
Proof.
  intros Hparams Hbody Hsym Hlookup Harg Hty Hstatic.
  unfold ConvertIREEBindingOp, getNumArguments, getArgument,
    lookupNearestSymbolFrom.
  rewrite Hsym, Hlookup, Hbody, Harg, Hty, Hstatic.
  unfold run, Rewriter.bind, assert.
  rewrite bool_decide_eq_true_2; [reflexivity |].
  destruct (LLVMFuncOp_params llvmFuncOp); [done | cbn; lia].
Qed.

Lemma ConvertIREEBindingOp_descriptor_on_binding_number_witness :
  let f := LLVM_LLVMFuncOp "kernel" LLVMVoidTy
             [LLVMPointerTy (FloatTy 32) 0; LLVMPointerTy getI32Type 0]
             External ∅
             [Blk [LLVMPointerTy (FloatTy 32) 0; LLVMPointerTy getI32Type 0]
                  []] in
  exampleSymbols !! "io::arg1"%string
  = Some (InterfaceBindingOp (mkAPInt 64 0) (mkAPInt 64 1))
  ∧ run (ConvertIREEBindingOp exampleSymbols (Some f)
           (exampleSubspan "io::arg1" getI32Type) [])
    = Some (success,
            descriptorOn (MemRefTy [Some 4] getI32Type 0) 1
                         (LLVMPointerTy getI32Type 0)).
Proof.
  cbn zeta. split; [vm_compute; reflexivity |].
  apply (ConvertIREEBindingOp_descriptor_on_binding_number exampleSymbols
           _ _ [] "io::arg1"%string (mkAPInt 64 0) (mkAPInt 64 1)
           [Some 4] getI32Type 0
           (Blk [LLVMPointerTy (FloatTy 32) 0; LLVMPointerTy getI32Type 0] [])
           []);
    try (vm_compute; reflexivity).
  discriminate.
Defined.

(** X16: nested in an LLVM function that has a parameter, a reference
    whose memref has a dynamic dimension, with a symbol that resolves to
    a binding declaration and a binding number inside the arguments of
    the entry block, reaches the assertion of the unimplemented case:
    with assertions enabled the pattern neither succeeds nor declines,
    and no descriptor is created. *)
Theorem ConvertIREEBindingOp_dynamic_shape_assertion
    (symbols : gmap string SymbolOp) (llvmFuncOp : LLVMOp)
    (op : Operation) (operands : list Value)
    (symbol : string) (set binding : APInt)
    (shape : list (option Z)) (elType : Ty) (memorySpace : Z)
    (entry : Block) (rest : list Block) (argType : Ty) :
  LLVMFuncOp_params llvmFuncOp ≠ [] →
  LLVMFuncOp_body llvmFuncOp = entry :: rest →
  getAttrOfType_SymbolRefAttr op "binding" = Some symbol →
  symbols !! symbol = Some (InterfaceBindingOp set binding) →
  block_args entry !! Z.to_nat (static_cast_unsigned (getZExtValue binding))
  = Some argType →
  getType op = Some (MemRefTy shape elType memorySpace) →
  hasStaticShape shape = false →
  run (ConvertIREEBindingOp symbols (Some llvmFuncOp) op operands) = None.
Proof.
  intros Hparams Hbody Hsym Hlookup Harg Hty Hdynamic.
  unfold ConvertIREEBindingOp, getNumArguments, getArgument,
    lookupNearestSymbolFrom.
  rewrite Hsym, Hlookup, Hbody, Harg, Hty, Hdynamic.
  unfold run, Rewriter.bind, assert.
  rewrite bool_decide_eq_true_2; [reflexivity |].
  destruct (LLVMFuncOp_params llvmFuncOp); [done | cbn; lia].
Qed.

Lemma ConvertIREEBindingOp_dynamic_shape_assertion_witness :
  let f := LLVM_LLVMFuncOp "kernel" LLVMVoidTy
             [LLVMPointerTy (FloatTy 32) 0] External ∅
             [Blk [LLVMPointerTy (FloatTy 32) 0] []] in
  hasStaticShape [None; Some 4] = false
  ∧ run (ConvertIREEBindingOp exampleSymbols (Some f)
           (exampleDynamicSubspan "io::arg0") []) = None.
Proof.
  cbn zeta. split; [reflexivity |].
  apply (ConvertIREEBindingOp_dynamic_shape_assertion exampleSymbols
           _ _ [] "io::arg0"%string (mkAPInt 64 0) (mkAPInt 64 0)
           [None; Some 4] (FloatTy 32) 0
           (Blk [LLVMPointerTy (FloatTy 32) 0] []) []
           (LLVMPointerTy (FloatTy 32) 0));
    try (vm_compute; reflexivity).
  discriminate.
Defined.

(** X17: each registered workgroup pattern reads, on the axes 0, 1 and 2,
    the intrinsic of the selected backend, of the quantity the query asks
    for (block id for the workgroup id, grid dimension for the count,
    block dimension for the size) and of that axis. *)
Theorem populateLLVMConversionPatterns_intrinsic_table
    (useROCM : bool) (kind : InterfaceWorkgroupKind)
    (pattern : InterfaceWorkgroupOp → list Value → Pattern)
    (axis : Z) (operands : list Value) :
  (kind, pattern) ∈ populateLLVMConversionPatterns_workgroup useROCM →
  0 ≤ axis ≤ 2 →
  ∃ intrinsic,
    run (pattern (workgroupQuery axis) operands)
    = Some (success, intrinsicReadExtended intrinsic)
    ∧ intrinsic_backend intrinsic = backendOf useROCM
    ∧ intrinsic_quantity intrinsic = query_quantity kind
    ∧ intrinsic_axis intrinsic = axis.
Proof.
  intros Hin Haxis.
  assert (Hcases : axis = 0 ∨ axis = 1 ∨ axis = 2) by lia.
  unfold populateLLVMConversionPatterns_workgroup in Hin.
  destruct useROCM; rewrite !elem_of_cons, elem_of_nil in Hin;
    destruct Hin as [[= -> ->] | [[= -> ->] | [[= -> ->] | []]]];
    destruct Hcases as [-> | [-> | ->]];
    eexists; (split; [reflexivity |]); repeat split.
Qed.

Lemma populateLLVMConversionPatterns_intrinsic_table_witness :
  ∃ pattern,
    populateLLVMConversionPatterns_workgroup true !! 1%nat
    = Some (InterfaceWorkgroupCountOp, pattern)
    ∧ run (pattern (workgroupQuery 1) [])
      = Some (success, intrinsicReadExtended ROCDL_GridDimYOp).
Proof.
  eexists. split; [reflexivity |].
  edestruct (populateLLVMConversionPatterns_intrinsic_table true
               InterfaceWorkgroupCountOp
               (HALInterfaceWorkgroupOpsConverter
                  ROCDL_GridDimXOp ROCDL_GridDimYOp ROCDL_GridDimZOp)
               1 [])
    as (intrinsic & Hrun & _).
  { unfold populateLLVMConversionPatterns_workgroup.
    apply list_elem_of_further, list_elem_of_here. }
  { lia. }
  assert (Hi : intrinsic = ROCDL_GridDimYOp)
    by (vm_compute in Hrun; congruence).
  subst intrinsic. exact Hrun.
Defined.

Lemma static_cast_int32_low_bits (x : Z) :
  static_cast_int32 x
  = if x mod 2 ^ 32 <? 2 ^ 31 then x mod 2 ^ 32 else x mod 2 ^ 32 - 2 ^ 32.
Proof.
  unfold static_cast_int32.
  pose proof (Z.mod_pos_bound x (2 ^ 32) ltac:(lia)) as Hr.
  rewrite (Z.div_mod x (2 ^ 32)) at 1 by lia.
  replace (2 ^ 32 * (x / 2 ^ 32) + x mod 2 ^ 32 + 2 ^ 31)
    with (x mod 2 ^ 32 + 2 ^ 31 + (x / 2 ^ 32) * 2 ^ 32) by lia.
  rewrite Z.mod_add by lia.
  destruct (Z.ltb_spec (x mod 2 ^ 32) (2 ^ 31)) as [Hlt | Hge].
  - rewrite Z.mod_small by lia. lia.
  - replace (x mod 2 ^ 32 + 2 ^ 31)
      with (x mod 2 ^ 32 - 2 ^ 31 + 1 * 2 ^ 32) by lia.
    rewrite Z.mod_add by lia. rewrite Z.mod_small by lia. lia.
Qed.

(** X18: a workgroup query is lowered exactly when the low 32 bits of its
    64-bit axis are 0, 1 or 2, the higher bits playing no part; on any
    other axis, negative ones included, the pattern declines and has
    created no intrinsic. *)
Theorem HALInterfaceWorkgroupOpsConverter_low_bits
    (XOp YOp ZOp : GPUIntrinsic) (axis : Z) (operands : list Value) :
  0 ≤ axis < 2 ^ 64 →
  run (HALInterfaceWorkgroupOpsConverter XOp YOp ZOp
         (workgroupQuery axis) operands)
  = if decide (axis mod 2 ^ 32 = 0)
    then Some (success, intrinsicReadExtended XOp)
    else if decide (axis mod 2 ^ 32 = 1)
    then Some (success, intrinsicReadExtended YOp)
    else if decide (axis mod 2 ^ 32 = 2)
    then Some (success, intrinsicReadExtended ZOp)
    else Some (failure, initial).
Proof.
  intros Hrange.
  rewrite HALInterfaceWorkgroupOpsConverter_run.
  unfold workgroupQuery, getSExtValue. cbn [dimension raw bitWidth].
  assert (Hsame : static_cast_int32
                    (if axis <? 2 ^ (64 - 1) then axis else axis - 2 ^ 64)
                  = static_cast_int32 axis).
  { destruct (axis <? 2 ^ (64 - 1)); [reflexivity |].
    replace (axis - 2 ^ 64) with (axis + 2 ^ 32 * (- 2 ^ 32)) by lia.
    apply static_cast_int32_periodic. }
  rewrite Hsame, static_cast_int32_low_bits.
  pose proof (Z.mod_pos_bound axis (2 ^ 32) ltac:(lia)) as Hr.
  remember (axis mod 2 ^ 32) as low eqn:Hlow. clear Hlow Hsame.
  destruct (Z.ltb_spec low (2 ^ 31)) as [Hlt | Hge].
  - destruct (decide (low = 0)) as [-> | H0]; [reflexivity |].
    destruct (decide (low = 1)) as [-> | H1]; [reflexivity |].
    destruct (decide (low = 2)) as [-> | H2]; [reflexivity |].
    destruct low as [| [[] | [] |] |]; try reflexivity; lia.
  - rewrite !decide_False by lia.
    destruct (low - 2 ^ 32) as [| p | p] eqn:Hd; [lia | lia | reflexivity].
Qed.

Lemma HALInterfaceWorkgroupOpsConverter_low_bits_witness :
  0 ≤ 2 ^ 64 - 1 < 2 ^ 64
  ∧ run (HALInterfaceWorkgroupOpsConverter
           NVVM_BlockIdXOp NVVM_BlockIdYOp NVVM_BlockIdZOp
           (workgroupQuery (2 ^ 64 - 1)) [])
    = Some (failure, initial).
Proof.
  split; [lia |].
  rewrite (HALInterfaceWorkgroupOpsConverter_low_bits
             NVVM_BlockIdXOp NVVM_BlockIdYOp NVVM_BlockIdZOp
             (2 ^ 64 - 1) []) by lia.
  reflexivity.
Defined.

Lemma walk_InterfaceBindingSubspanOp_preorder_witness :
  leafSubspans (walk_region (func_body kernelSwapped))
  ∧ walk_InterfaceBindingSubspanOp kernelSwapped
    = bindingReferences kernelSwapped.
Proof.
  assert (Hleaf : leafSubspans (walk_region (func_body kernelSwapped))).
  { intros o Ho _. cbn in Ho.
    rewrite !elem_of_cons, elem_of_nil in Ho.
    destruct Ho as [-> | [-> | [-> | []]]]; reflexivity. }
  split; [exact Hleaf |].
  exact (walk_InterfaceBindingSubspanOp_preorder kernelSwapped Hleaf).
Defined.

End GPUFurtherProperties.
